(** * cTCP (lab 1-2): a shallow embedding of [ctcp.c]

    The development follows the source file top to bottom: the C integer
    conversions and byte-order helpers the code relies on, the data model
    ([ctcp_segment_t], [timestamped_segment_t], [struct ctcp_state] and the
    intrusive list of active states), then the functions [ctcp_init],
    [ctcp_destroy], [array_copy], [create_new_data_segment],
    [create_new_fin_segment], [send_outbound_tail_segments], [ctcp_read],
    [ctcp_receive], [ctcp_output] and [ctcp_timer].

    Mutexes are not modelled: every function is run as one atomic step, and
    the output thread forked by [ctcp_read] is a separate step of the
    transition system.  External calls with an observable effect are
    recorded in a trace. *)

From Stdlib Require Import ZArith Lia Bool.
From Stdlib.Strings Require Import Byte.
From stdpp Require Import gmap list.

Local Open Scope Z_scope.

(** ** C integers and byte order *)

Module CInt.

(** Conversion to [uint16_t], [uint32_t], [short] and [int]. *)
Definition to_u16 (x : Z) : Z := x mod 2 ^ 16.
Definition to_u32 (x : Z) : Z := x mod 2 ^ 32.
Definition to_short (x : Z) : Z := (x + 2 ^ 15) mod 2 ^ 16 - 2 ^ 15.
Definition to_int (x : Z) : Z := (x + 2 ^ 31) mod 2 ^ 32 - 2 ^ 31.

Definition INT_MAX : Z := 2 ^ 31 - 1.

(** The byte swaps behind [htonl]/[htons] on a little-endian host. *)
Definition bswap_32 (x : Z) : Z :=
  Z.lor (Z.lor (Z.lor (Z.shiftr (Z.land x 0xff000000) 24)
                      (Z.shiftr (Z.land x 0x00ff0000) 8))
               (Z.shiftl (Z.land x 0x0000ff00) 8))
        (Z.shiftl (Z.land x 0x000000ff) 24).

Definition bswap_16 (x : Z) : Z :=
  Z.lor (Z.land (Z.shiftr x 8) 0xff) (Z.shiftl (Z.land x 0xff) 8).

End CInt.
Import CInt.

(** ** Data model *)

(** Addresses of heap-allocated [struct ctcp_state] objects. *)
Abbreviation addr := positive.

(** [conn_t] is opaque to [ctcp.c]; a connection object is identified by a
    number.  A [conn_t *] is an [option conn_t], [None] being [NULL]. *)
Definition conn_t : Type := nat.

(** Modelled from the spec: [ctcp_config_t] is declared in [ctcp_sys.h],
    which is not part of the sources; the code reads [recv_window] and
    [send_window], the spec lists the remaining options.  The window sizes
    are 16-bit unsigned fields. *)
Record ctcp_config_t : Type := mk_config {
  recv_window : Z;
  send_window : Z;
  retransmission_timeout : Z;
  max_retransmissions : Z
}.

(** Modelled from the spec: [ctcp_segment_t] is declared in [ctcp_sys.h],
    which is not part of the sources.  A segment has the header fields
    [seqno], [ackno], [len], [flags], [window], [cksum] (all kept in
    network byte order by [ctcp.c]) and a payload, the [data] the code
    assigns to it. *)
Record ctcp_segment_t : Type := mk_segment {
  seqno : Z;
  ackno : Z;
  len : Z;
  flags : Z;
  window : Z;
  cksum : Z;
  data : list byte
}.

Record timestamped_segment_t : Type := mk_timestamped {
  time_when_sent : Z;
  segment : ctcp_segment_t
}.

(** Where a [prev] pointer points: at the global [state_list] or at the
    [next] field of another state. *)
Inductive link : Type :=
  | AtStateList
  | AtNextOf (p : addr).

(** The three list fields hold pointers to lists made by [ll_create].
    [outbound_segments_list s] and its two companions are the lists the
    pointers were last set to; [outbound_list_intact s] and its companions
    tell whether the pointer field still holds that pointer.  After
    [calloc] the pointers are [NULL]: no list, not intact. *)
Record ctcp_state : Type := mk_state {
  next : option addr;
  prev : link;
  conn : conn_t;
  config : ctcp_config_t;
  next_seq_no : Z;
  last_ack_sent : Z;
  last_ack_received : Z;
  is_output_thread_running : Z;
  outbound_segments_list : list timestamped_segment_t;
  inflight_segments_list : list timestamped_segment_t;
  received_segments_list : list ctcp_segment_t;
  bytes_inflight : Z;
  outbound_list_intact : bool;
  inflight_list_intact : bool;
  received_list_intact : bool
}.

(** Field updates, one per assignment form used by the code.
    [set_outbound_segments_list] is a change of the list made through the
    pointer ([ll_add_front], [ll_remove]): the pointer field itself is not
    written. *)
Definition set_next (v : option addr)
    (s : ctcp_state) : ctcp_state :=
  mk_state v (prev s) (conn s) (config s) (next_seq_no s) (last_ack_sent s)
    (last_ack_received s) (is_output_thread_running s)
    (outbound_segments_list s) (inflight_segments_list s)
    (received_segments_list s) (bytes_inflight s) (outbound_list_intact s)
    (inflight_list_intact s) (received_list_intact s).

Definition set_prev (v : link)
    (s : ctcp_state) : ctcp_state :=
  mk_state (next s) v (conn s) (config s) (next_seq_no s) (last_ack_sent s)
    (last_ack_received s) (is_output_thread_running s)
    (outbound_segments_list s) (inflight_segments_list s)
    (received_segments_list s) (bytes_inflight s) (outbound_list_intact s)
    (inflight_list_intact s) (received_list_intact s).

Definition set_next_seq_no (v : Z)
    (s : ctcp_state) : ctcp_state :=
  mk_state (next s) (prev s) (conn s) (config s) v (last_ack_sent s)
    (last_ack_received s) (is_output_thread_running s)
    (outbound_segments_list s) (inflight_segments_list s)
    (received_segments_list s) (bytes_inflight s) (outbound_list_intact s)
    (inflight_list_intact s) (received_list_intact s).

Definition set_is_output_thread_running (v : Z)
    (s : ctcp_state) : ctcp_state :=
  mk_state (next s) (prev s) (conn s) (config s) (next_seq_no s)
    (last_ack_sent s) (last_ack_received s) v (outbound_segments_list s)
    (inflight_segments_list s) (received_segments_list s) (bytes_inflight s)
    (outbound_list_intact s) (inflight_list_intact s)
    (received_list_intact s).

Definition set_outbound_segments_list (v : list timestamped_segment_t)
    (s : ctcp_state) : ctcp_state :=
  mk_state (next s) (prev s) (conn s) (config s) (next_seq_no s)
    (last_ack_sent s) (last_ack_received s) (is_output_thread_running s) v
    (inflight_segments_list s) (received_segments_list s) (bytes_inflight s)
    (outbound_list_intact s) (inflight_list_intact s)
    (received_list_intact s).

(** [state->outbound_segments_list = ll_create ()] and its companions: a
    store into the pointer field, which then holds the pointer to [v]. *)
Definition assign_outbound_segments_list (v : list timestamped_segment_t)
    (s : ctcp_state) : ctcp_state :=
  mk_state (next s) (prev s) (conn s) (config s) (next_seq_no s)
    (last_ack_sent s) (last_ack_received s) (is_output_thread_running s) v
    (inflight_segments_list s) (received_segments_list s) (bytes_inflight s)
    true (inflight_list_intact s) (received_list_intact s).

Definition assign_inflight_segments_list (v : list timestamped_segment_t)
    (s : ctcp_state) : ctcp_state :=
  mk_state (next s) (prev s) (conn s) (config s) (next_seq_no s)
    (last_ack_sent s) (last_ack_received s) (is_output_thread_running s)
    (outbound_segments_list s) v (received_segments_list s)
    (bytes_inflight s) (outbound_list_intact s) true
    (received_list_intact s).

Definition assign_received_segments_list (v : list ctcp_segment_t)
    (s : ctcp_state) : ctcp_state :=
  mk_state (next s) (prev s) (conn s) (config s) (next_seq_no s)
    (last_ack_sent s) (last_ack_received s) (is_output_thread_running s)
    (outbound_segments_list s) (inflight_segments_list s) v
    (bytes_inflight s) (outbound_list_intact s) (inflight_list_intact s)
    true.

(** [ll_create ()]: a new, empty list. *)
Definition ll_create {A : Type} : list A := [].

(** [pthread_mutex_lock (&(state->outbound_segments_list))] and its
    companions (lines 127, 131, 135): the lock is taken on the address of
    the list pointer field, not on the [..._list_lock] mutex beside it.
    The field is [NULL] at that point and is assigned right after, so the
    lock leaves nothing of its own in the fields modelled here. *)
Definition lock_at_list_pointer (s : ctcp_state) : ctcp_state := s.

(** [pthread_mutex_unlock (&(state->outbound_segments_list))] and its
    companions (lines 129, 133, 137): the unlock clears the lock word of
    what it takes for a mutex, and that word is part of the pointer that
    was stored in the field since the lock.  The field no longer holds the
    pointer to the list. *)
Definition unlock_at_outbound_pointer (s : ctcp_state) : ctcp_state :=
  mk_state (next s) (prev s) (conn s) (config s) (next_seq_no s)
    (last_ack_sent s) (last_ack_received s) (is_output_thread_running s)
    (outbound_segments_list s) (inflight_segments_list s)
    (received_segments_list s) (bytes_inflight s) false
    (inflight_list_intact s) (received_list_intact s).

Definition unlock_at_inflight_pointer (s : ctcp_state) : ctcp_state :=
  mk_state (next s) (prev s) (conn s) (config s) (next_seq_no s)
    (last_ack_sent s) (last_ack_received s) (is_output_thread_running s)
    (outbound_segments_list s) (inflight_segments_list s)
    (received_segments_list s) (bytes_inflight s) (outbound_list_intact s)
    false (received_list_intact s).

Definition unlock_at_received_pointer (s : ctcp_state) : ctcp_state :=
  mk_state (next s) (prev s) (conn s) (config s) (next_seq_no s)
    (last_ack_sent s) (last_ack_received s) (is_output_thread_running s)
    (outbound_segments_list s) (inflight_segments_list s)
    (received_segments_list s) (bytes_inflight s) (outbound_list_intact s)
    (inflight_list_intact s) false.

Definition set_seqno (v : Z) (g : ctcp_segment_t) : ctcp_segment_t :=
  mk_segment v (ackno g) (len g) (flags g) (window g) (cksum g) (data g).
Definition set_ackno (v : Z) (g : ctcp_segment_t) : ctcp_segment_t :=
  mk_segment (seqno g) v (len g) (flags g) (window g) (cksum g) (data g).
Definition set_len (v : Z) (g : ctcp_segment_t) : ctcp_segment_t :=
  mk_segment (seqno g) (ackno g) v (flags g) (window g) (cksum g) (data g).
Definition set_flags (v : Z) (g : ctcp_segment_t) : ctcp_segment_t :=
  mk_segment (seqno g) (ackno g) (len g) v (window g) (cksum g) (data g).
Definition set_window (v : Z) (g : ctcp_segment_t) : ctcp_segment_t :=
  mk_segment (seqno g) (ackno g) (len g) (flags g) v (cksum g) (data g).
Definition set_cksum (v : Z) (g : ctcp_segment_t) : ctcp_segment_t :=
  mk_segment (seqno g) (ackno g) (len g) (flags g) (window g) v (data g).
Definition set_data (v : list byte) (g : ctcp_segment_t) : ctcp_segment_t :=
  mk_segment (seqno g) (ackno g) (len g) (flags g) (window g) (cksum g) v.

(** [calloc(sizeof(ctcp_segment_t), 1)]: every field zero. *)
Definition calloc_segment : ctcp_segment_t := mk_segment 0 0 0 0 0 0 [].

(** [calloc(sizeof(timestamped_segment_t), 1)] followed by the assignment
    of its [segment] field, the only way [ctcp.c] builds one. *)
Definition calloc_timestamped (g : ctcp_segment_t) : timestamped_segment_t :=
  mk_timestamped 0 g.

(** [#define INITIAL_SEQ_NO 1u] *)
Definition INITIAL_SEQ_NO : Z := 1.

(** ** The process: heap of states, registry, threads, trace *)

(** External calls whose effect is visible outside [ctcp.c].  [conn_send]
    is listed because the source names it (line 267); no function of the
    file ever calls it. *)
Inductive event : Type :=
  | ev_pthread_create (state : addr) (rc : Z)
  | ev_thread_exit (state : addr)
  | ev_conn_remove (c : conn_t)
  | ev_free (state : addr)
  | ev_end_client
  | ev_conn_send (c : conn_t) (g : ctcp_segment_t).

(** [heap] holds the allocated states, [state_list] is the static head
    pointer of the list of active states, [threads] the output threads
    that were created and have not run yet (each named by the state it was
    given), [trace] the external calls made so far, oldest first. *)
Record world : Type := mk_world {
  heap : gmap addr ctcp_state;
  state_list : option addr;
  threads : list addr;
  trace : list event
}.

Definition initial_world : world := mk_world ∅ None [] [].

(** The result of running the body of the output thread. *)
Inductive thread_outcome : Type :=
  | Returned (state : ctcp_state)
  | ThreadExit (state : ctcp_state)
  | NullDeref.

(** ** [ctcp_init] and [ctcp_destroy] *)

(** The state [ctcp_init] leaves at the address [calloc] returned, [head]
    being the value of [state_list] it found (lines 96-98, 104-109, 122 and
    127-137; the store into the former head's [prev] and into [state_list]
    are in [ctcp_init] below).  Each of the three lists is created between
    a lock and an unlock taken on the address of its own pointer field. *)
Definition ctcp_init_state (conn : conn_t) (cfg : ctcp_config_t)
    (head : option addr) : ctcp_state :=
  let state :=
    {| next := head;
       prev := AtStateList;
       conn := conn;
       config := cfg;
       next_seq_no := INITIAL_SEQ_NO;
       last_ack_sent := 0;
       last_ack_received := 0;
       is_output_thread_running := 0;
       outbound_segments_list := [];
       inflight_segments_list := [];
       received_segments_list := [];
       bytes_inflight := 0;
       outbound_list_intact := false;
       inflight_list_intact := false;
       received_list_intact := false |} in
  let state := lock_at_list_pointer state in
  let state := assign_outbound_segments_list ll_create state in
  let state := unlock_at_outbound_pointer state in
  let state := lock_at_list_pointer state in
  let state := assign_inflight_segments_list ll_create state in
  let state := unlock_at_inflight_pointer state in
  let state := lock_at_list_pointer state in
  let state := assign_received_segments_list ll_create state in
  let state := unlock_at_received_pointer state in
  state.

(** [calloc] is taken to succeed (the code does not test its result) and to
    return an address that is not in use.  The new state is linked in front
    of [state_list]; the former head, if any, gets its [prev] redirected to
    the [next] field of the new state. *)
Definition ctcp_init (conn : option conn_t) (cfg : ctcp_config_t)
    (w : world) : option addr * world :=
  match conn with
  | None => (None, w)
  | Some c =>
      let state : addr := fresh (dom (heap w)) in
      let st := ctcp_init_state c cfg (state_list w) in
      let h := <[state := st]> (heap w) in
      let h :=
        match state_list w with
        | Some old => alter (set_prev (AtNextOf state)) old h
        | None => h
        end in
      (Some state, mk_world h (Some state) (threads w) (trace w))
  end.

(** [*state->prev = state->next]: a store through the [prev] pointer. *)
Definition store_through (l : link) (v : option addr)
    (h : gmap addr ctcp_state) (sl : option addr)
    : gmap addr ctcp_state * option addr :=
  match l with
  | AtStateList => (h, v)
  | AtNextOf p => (alter (set_next v) p h, sl)
  end.

(** [None] when [state] is not an allocated state (the C code would read
    freed memory). *)
Definition ctcp_destroy (state : addr) (w : world) : option world :=
  match heap w !! state with
  | None => None
  | Some st =>
      let h :=
        match next st with
        | Some n => alter (set_prev (prev st)) n (heap w)
        | None => heap w
        end in
      let '(h, sl) := store_through (prev st) (next st) h (state_list w) in
      Some (mk_world (delete state h) sl (threads w)
              (trace w ++ [ev_conn_remove (conn st); ev_free state;
                           ev_end_client]))
  end.

(** Two states that differ at most in their list links [next] and
    [prev]. *)
Definition same_protocol_state (s s' : ctcp_state) : Prop :=
  conn s' = conn s ∧ config s' = config s ∧
  next_seq_no s' = next_seq_no s ∧
  last_ack_sent s' = last_ack_sent s ∧
  last_ack_received s' = last_ack_received s ∧
  is_output_thread_running s' = is_output_thread_running s ∧
  outbound_segments_list s' = outbound_segments_list s ∧
  inflight_segments_list s' = inflight_segments_list s ∧
  received_segments_list s' = received_segments_list s ∧
  bytes_inflight s' = bytes_inflight s ∧
  outbound_list_intact s' = outbound_list_intact s ∧
  inflight_list_intact s' = inflight_list_intact s ∧
  received_list_intact s' = received_list_intact s.

(** ** The registry as a doubly linked list

    [dseg h pp p l]: following [next] from pointer [p] through heap [h]
    visits exactly the states [l], and the [prev] field of each of them
    points back at the location the pointer to it is stored in ([pp] for
    the first one). *)
Fixpoint dseg (h : gmap addr ctcp_state) (pp : link) (p : option addr)
    (l : list addr) : Prop :=
  match l with
  | [] => p = None
  | a :: l' =>
      p = Some a ∧
      ∃ st, h !! a = Some st ∧ prev st = pp ∧ dseg h (AtNextOf a) (next st) l'
  end.

(** The active states of [w], front first. *)
Definition registry (w : world) (l : list addr) : Prop :=
  dseg (heap w) AtStateList (state_list w) l ∧ NoDup l.

(** The list of active states is well formed and holds exactly the
    allocated states. *)
Definition registry_exact (w : world) : Prop :=
  ∃ l, registry w l ∧ ∀ a, a ∈ l ↔ is_Some (heap w !! a).

(** ** What [ctcp.c] takes from its headers and from the host

    [ACK], [FIN], [MAX_SEG_DATA_SIZE] and the layout of [ctcp_segment_t]
    come from [ctcp_sys.h], [cksum] from [ctcp_utils.h], the byte order
    from the host; none of them is defined in [ctcp.c], so the embedding
    is parametric in them. *)
Class Platform : Type := mk_platform {
  big_endian : bool;
  ACK : Z;
  FIN : Z;
  MAX_SEG_DATA_SIZE : Z;
  sizeof_ctcp_segment_t : Z;
  (** [cksum(seg, n)]: the checksum of the [n] bytes found at the address
      of the block [seg]; when [n] exceeds the block, of the block and of
      what the heap holds behind it. *)
  cksum_fn : ctcp_segment_t → Z → Z
}.

Section Ctcp.

Context `{P : Platform}.

Definition htonl (x : Z) : Z :=
  if big_endian then to_u32 x else bswap_32 (to_u32 x).
Definition ntohl (x : Z) : Z := htonl x.
Definition htons (x : Z) : Z :=
  if big_endian then to_u16 x else bswap_16 (to_u16 x).
Definition ntohs (x : Z) : Z := htons x.

(** *** [array_copy] *)

(** The loop [for (i = 0; i < n; i++) to[i] = from[i];], started at index
    [i] with [k] iterations left.  An index outside [from] is not read. *)
Fixpoint array_copy_loop (k i : nat) (to from : list byte) : list byte :=
  match k with
  | O => to
  | S k' =>
      array_copy_loop k' (S i)
        (match from !! i with
         | Some b => <[i := b]> to
         | None => to
         end) from
  end.

Definition array_copy (to from : list byte) (n : Z) : list byte :=
  array_copy_loop (Z.to_nat n) 0 to from.

(** [malloc(n)]: a block of [n] bytes (contents immaterial, every byte is
    overwritten before it is read). *)
Definition malloc (n : Z) : list byte := replicate (Z.to_nat n) x00.

(** *** [create_new_data_segment] *)

(** The block [calloc(sizeof(ctcp_segment_t), 1)] returns holds the header
    fields only.  The payload is copied into a block of its own ([malloc]
    at line 176) that the segment refers to through [data]; it is not part
    of the block at the address of the segment. *)
Definition header_block (g : ctcp_segment_t) : ctcp_segment_t :=
  set_data [] g.

(** [cksum(new_segment, ntohs(new_segment->len))] is handed the address of
    the header block and the length of header plus payload: it reads the
    header and what lies behind it in the heap, not the payload. *)
Definition create_new_data_segment (state : ctcp_state) (bytes_read : Z)
    (buffer : list byte) : ctcp_segment_t * ctcp_state :=
  let new_segment := calloc_segment in
  let data := array_copy (malloc bytes_read) buffer bytes_read in
  let new_segment := set_seqno (htonl (next_seq_no state)) new_segment in
  let state :=
    set_next_seq_no (to_int (next_seq_no state + bytes_read)) state in
  let new_segment := set_ackno (htonl (last_ack_sent state)) new_segment in
  let new_segment :=
    set_len (htons (sizeof_ctcp_segment_t + bytes_read)) new_segment in
  let new_segment :=
    set_flags (Z.lor (flags new_segment) (htonl ACK)) new_segment in
  let new_segment :=
    set_window (htons (recv_window (config state))) new_segment in
  let new_segment := set_cksum 0 new_segment in
  let new_segment := set_data data new_segment in
  let new_segment :=
    set_cksum
      (cksum_fn (header_block new_segment) (ntohs (len new_segment)))
      new_segment in
  (new_segment, state).

(** *** [create_new_fin_segment] *)

(** The state is only read: [next_seq_no] is left as it is ("no need to
    update next_seq_no field now as we dont intend to send any more
    segments"). *)
Definition create_new_fin_segment (state : ctcp_state) : ctcp_segment_t :=
  let new_fin_segment := calloc_segment in
  let new_fin_segment :=
    set_seqno (htonl (next_seq_no state)) new_fin_segment in
  let new_fin_segment :=
    set_ackno (htonl (last_ack_sent state)) new_fin_segment in
  let new_fin_segment :=
    set_len (htons sizeof_ctcp_segment_t) new_fin_segment in
  let new_fin_segment :=
    set_flags (Z.lor (flags new_fin_segment) (htonl ACK)) new_fin_segment in
  let new_fin_segment :=
    set_flags (Z.lor (flags new_fin_segment) (htonl FIN)) new_fin_segment in
  let new_fin_segment :=
    set_window (htons (recv_window (config state))) new_fin_segment in
  let new_fin_segment := set_cksum 0 new_fin_segment in
  let new_fin_segment :=
    set_cksum (cksum_fn new_fin_segment (ntohs (len new_fin_segment)))
      new_fin_segment in
  new_fin_segment.

(** *** [send_outbound_tail_segments] *)

(** The window test and the removal of the tail node of the outbound list.
    The inflight list lock is taken and released with nothing in between,
    and [tail_timestamped_segment] is not used after its assignment. *)
Definition send_outbound_tail_segments (state : ctcp_state) : thread_outcome :=
  let send_window_size := to_short (send_window (config state)) in
  let after_window :=
    if send_window_size >? bytes_inflight state then
      match outbound_segments_list state with
      | _ :: _ =>
          let tail_timestamped_segment :=
            last (outbound_segments_list state) in
          Returned (set_outbound_segments_list
                      (removelast (outbound_segments_list state)) state)
      | [] => ThreadExit state
      end
    else Returned state in
  match after_window with
  | Returned state =>
      match last (outbound_segments_list state) with
      | None => NullDeref
      | Some tail =>
          if to_u32 (last_ack_received state) >? seqno (segment tail)
          then Returned state (* [conn_send] is named, not called *)
          else Returned state
      end
  | ThreadExit state => ThreadExit state
  | NullDeref => NullDeref
  end.

(** *** [ctcp_read] *)

(** The results of the successive calls of [conn_input] are given as a
    script of pairs (return value, buffer contents); the loop runs until a
    call returns a value that is not positive, and a script that runs out
    stands for "no data available" (return value 0).  The buffer of
    [MAX_SEG_DATA_SIZE] bytes and the bound on what one call returns belong
    to the script.  The return values of the calls of [pthread_create] are
    given in the same way, a script that runs out standing for success. *)
Fixpoint ctcp_read_loop (self : addr) (state : ctcp_state)
    (need_to_fork_thread : Z) (inputs : list (Z * list byte))
    (creates : list Z) : ctcp_state * Z * list event :=
  match inputs with
  | [] => (state, 0, [])
  | (bytes_read, buffer) :: inputs =>
      if bytes_read >? 0 then
        let '(new_segment, state) :=
          create_new_data_segment state bytes_read buffer in
        let timestamped_segment := calloc_timestamped new_segment in
        let state :=
          set_outbound_segments_list
            (timestamped_segment :: outbound_segments_list state) state in
        if need_to_fork_thread =? 0 then
          ctcp_read_loop self state need_to_fork_thread inputs creates
        else if is_output_thread_running state =? 0 then
          let rc := hd 0 creates in
          let need_to_fork_thread := to_short rc in
          let state :=
            if need_to_fork_thread =? 0
            then set_is_output_thread_running 1 state
            else state in
          let '(state, bytes_read, evs) :=
            ctcp_read_loop self state need_to_fork_thread inputs
              (tl creates) in
          (state, bytes_read, ev_pthread_create self rc :: evs)
        else
          ctcp_read_loop self state 0 inputs creates
      else (state, bytes_read, [])
  end.

(** The branch taken after the loop: [if (bytes_read == -1) { ... }]. *)
Definition ctcp_read_eof (state : ctcp_state) (bytes_read : Z) : ctcp_state :=
  if bytes_read =? -1 then
    let timestamped_segment :=
      calloc_timestamped (create_new_fin_segment state) in
    set_outbound_segments_list
      (timestamped_segment :: outbound_segments_list state) state
  else state.

Definition ctcp_read (self : addr) (state : ctcp_state)
    (inputs : list (Z * list byte)) (creates : list Z)
    : ctcp_state * list event :=
  let need_to_fork_thread := 1 in
  let '(state, bytes_read, evs) :=
    ctcp_read_loop self state need_to_fork_thread inputs creates in
  (ctcp_read_eof state bytes_read, evs).

(** *** [ctcp_receive], [ctcp_output], [ctcp_timer]: empty bodies *)

Definition ctcp_receive (state : ctcp_state) (segment : ctcp_segment_t)
    (len : Z) : ctcp_state := state.

Definition ctcp_output (state : ctcp_state) : ctcp_state := state.

Definition ctcp_timer (w : world) : world := w.

(** ** The transition system of the process *)

(** Threads started by the successful [pthread_create] calls of a trace. *)
Definition started_threads (evs : list event) : list addr :=
  omap (λ e, match e with
             | ev_pthread_create a rc => if rc =? 0 then Some a else None
             | _ => None
             end) evs.

Definition remove_first (a : addr) (l : list addr) : list addr :=
  match list_find (λ b, b = a) l with
  | Some (i, _) => delete i l
  | None => l
  end.

(** One call of a function of [ctcp.c], or one run of an output thread.
    [ctcp_read] and the thread body are followed as they are written, on
    the lists the pointers of the state were set to; the source does not
    define what they do when a pointer field is no longer intact, and the
    steps are taken for every allocated state alike. *)
Inductive step : world → world → Prop :=
  | step_init conn cfg w :
      step w (ctcp_init conn cfg w).2
  | step_destroy state w w' :
      ctcp_destroy state w = Some w' →
      step w w'
  | step_read state st inputs creates w st' evs :
      heap w !! state = Some st →
      ctcp_read state st inputs creates = (st', evs) →
      step w (mk_world (<[state := st']> (heap w)) (state_list w)
                (threads w ++ started_threads evs) (trace w ++ evs))
  | step_thread_returned state st st' w :
      state ∈ threads w →
      heap w !! state = Some st →
      send_outbound_tail_segments st = Returned st' →
      step w (mk_world (<[state := st']> (heap w)) (state_list w)
                (remove_first state (threads w)) (trace w))
  | step_thread_exit state st st' w :
      state ∈ threads w →
      heap w !! state = Some st →
      send_outbound_tail_segments st = ThreadExit st' →
      step w (mk_world (<[state := st']> (heap w)) (state_list w)
                (remove_first state (threads w))
                (trace w ++ [ev_thread_exit state]))
  | step_receive state st segment len w :
      heap w !! state = Some st →
      step w (mk_world (<[state := ctcp_receive st segment len]> (heap w))
                (state_list w) (threads w) (trace w))
  | step_output state st w :
      heap w !! state = Some st →
      step w (mk_world (<[state := ctcp_output st]> (heap w))
                (state_list w) (threads w) (trace w))
  | step_timer w :
      step w (ctcp_timer w).

Definition reachable : world → Prop := rtc step initial_world.

(** The same steps as functions on the process, for running it:
    [ctcp_read] called on the state at address [state], and the output
    thread created for [state] running its body.  [None] when the address
    is not an allocated state, when no such thread is pending, or when the
    body dereferences [NULL]. *)
Definition ctcp_read_at (state : addr) (inputs : list (Z * list byte))
    (creates : list Z) (w : world) : option world :=
  match heap w !! state with
  | Some st =>
      let '(st', evs) := ctcp_read state st inputs creates in
      Some (mk_world (<[state := st']> (heap w)) (state_list w)
              (threads w ++ started_threads evs) (trace w ++ evs))
  | None => None
  end.

Definition output_thread_at (state : addr) (w : world) : option world :=
  if decide (state ∈ threads w) then
    match heap w !! state with
    | Some st =>
        match send_outbound_tail_segments st with
        | Returned st' =>
            Some (mk_world (<[state := st']> (heap w)) (state_list w)
                    (remove_first state (threads w)) (trace w))
        | ThreadExit st' =>
            Some (mk_world (<[state := st']> (heap w)) (state_list w)
                    (remove_first state (threads w))
                    (trace w ++ [ev_thread_exit state]))
        | NullDeref => None
        end
    | None => None
    end
  else None.


(** The fields [ctcp_read] and the output thread never assign: all but
    [next_seq_no], [is_output_thread_running] and the outbound list. *)
Definition same_outside_sending (s s' : ctcp_state) : Prop :=
  next s' = next s ∧ prev s' = prev s ∧ conn s' = conn s ∧
  config s' = config s ∧
  last_ack_sent s' = last_ack_sent s ∧
  last_ack_received s' = last_ack_received s ∧
  inflight_segments_list s' = inflight_segments_list s ∧
  received_segments_list s' = received_segments_list s ∧
  bytes_inflight s' = bytes_inflight s.

(** A queued data segment as [ctcp_read] builds it: no send time yet, ACK
    the only flag. *)
Definition queued_data_segment (ts : timestamped_segment_t) : Prop :=
  time_when_sent ts = 0 ∧ flags (segment ts) = htonl ACK.

(** ** Accounting of the bytes in flight *)

(** Payload bytes carried by a queued segment: its total length less the
    header. *)
Definition payload_length (ts : timestamped_segment_t) : Z :=
  ntohs (len (segment ts)) - sizeof_ctcp_segment_t.


(** A run of the receive path over a sequence of arrivals. *)
Definition receive_all (state : ctcp_state)
    (arrivals : list (ctcp_segment_t * Z)) : ctcp_state :=
  foldl (λ st arrival, ctcp_receive st arrival.1 arrival.2) state arrivals.

(** A segment has flag [f] when all bits of [f] are set in its [flags]. *)
Definition has_flag (f : Z) (g : ctcp_segment_t) : Prop :=
  Z.land (ntohl (flags g)) (to_u32 f) = to_u32 f.

(** ** Runs of [ctcp_read]: what a script of [conn_input] results
    amounts to *)

(** The reads the loop of [ctcp_read] consumes: those before the first
    return value that is not positive. *)
Fixpoint positive_reads (inputs : list (Z * list byte))
    : list (Z * list byte) :=
  match inputs with
  | [] => []
  | r :: inputs => if r.1 >? 0 then r :: positive_reads inputs else []
  end.

(** The return value of [conn_input] on which the loop ends. *)
Fixpoint terminating_read (inputs : list (Z * list byte)) : Z :=
  match inputs with
  | [] => 0
  | r :: inputs => if r.1 >? 0 then terminating_read inputs else r.1
  end.

Definition total_bytes (reads : list (Z * list byte)) : Z :=
  foldr (λ r acc, r.1 + acc) 0 reads.

(** The bytes a read delivers: the first [bytes_read] bytes of the
    buffer. *)
Definition read_bytes (r : Z * list byte) : list byte :=
  take (Z.to_nat r.1) r.2.

(** The sequence numbers at which the payloads of successive reads start,
    the first one at [start]. *)
Fixpoint sequence_starts (start : Z) (reads : list (Z * list byte))
    : list Z :=
  match reads with
  | [] => []
  | r :: reads => start :: sequence_starts (start + r.1) reads
  end.

(** The window test of [send_outbound_tail_segments]. *)
Definition window_open (state : ctcp_state) : bool :=
  to_short (send_window (config state)) >? bytes_inflight state.

End Ctcp.

(** ** A concrete platform and concrete inputs *)

(** A stand-in for the external [cksum], used to run the model on concrete
    inputs: the 16-bit sum of the header fields, the length and the bytes. *)
Definition sample_cksum (g : ctcp_segment_t) (n : Z) : Z :=
  to_u16 (seqno g + ackno g + len g + flags g + window g + n
          + foldr (λ b acc, Z.of_N (Byte.to_N b) + acc) 0 (data g)).

(** Modelled from the spec: the constants of [ctcp_sys.h], which is not
    part of the sources.  Flags: bit 0 is ACK, bit 2 is FIN; the fixed
    header has 4 + 4 + 2 + 4 + 2 + 2 = 18 bytes; a segment carries at most
    1000 bytes of payload.  The host is taken little-endian. *)
Definition spec_platform : Platform :=
  {| big_endian := false;
     ACK := 1;
     FIN := 4;
     MAX_SEG_DATA_SIZE := 1000;
     sizeof_ctcp_segment_t := 18;
     cksum_fn := sample_cksum |}.

Definition sample_config : ctcp_config_t :=
  {| recv_window := 3000; send_window := 2000;
     retransmission_timeout := 200; max_retransmissions := 5 |}.

(** A connection state with its counters as [ctcp_init] sets them and
    with three empty lists behind intact pointers. *)
Definition sample_state : ctcp_state :=
  {| next := None; prev := AtStateList; conn := 7%nat;
     config := sample_config; next_seq_no := INITIAL_SEQ_NO;
     last_ack_sent := 0; last_ack_received := 0;
     is_output_thread_running := 0;
     outbound_segments_list := []; inflight_segments_list := [];
     received_segments_list := []; bytes_inflight := 0;
     outbound_list_intact := true; inflight_list_intact := true;
     received_list_intact := true |}.

(** The state [ctcp_init] leaves for connection 7 in an empty process. *)
Definition initialised_state : ctcp_state :=
  ctcp_init_state 7%nat sample_config None.

Definition sample_buffer : list byte := [x68; x65; x6c; x6c; x6f].

(** Another five bytes. *)
Definition other_buffer : list byte := [x77; x6f; x72; x6c; x64].

(** A stale pure acknowledgment (acknowledgment number 0) on
    [spec_platform]. *)
Definition sample_ack : ctcp_segment_t :=
  {| seqno := 0; ackno := @htonl spec_platform 0;
     len := @htons spec_platform 18; flags := @htonl spec_platform 1;
     window := @htons spec_platform 3000; cksum := 0; data := [] |}.

(** The process after one [ctcp_init], the address of its state, and the
    same process after [ctcp_read] has read five bytes and started the
    output thread. *)
Definition world_one : world :=
  (ctcp_init (Some 7%nat) sample_config initial_world).2.

Definition state_one : addr := 1%positive.

Definition world_sending : option world :=
  @ctcp_read_at spec_platform state_one [(5, sample_buffer)] [] world_one.

(** Two data segments as [ctcp_read] queues them, of five and of three
    payload bytes, and a connection state that has them in its outbound
    list, an open send window and nothing in flight. *)
Definition first_data_segment : timestamped_segment_t :=
  calloc_timestamped
    (@create_new_data_segment spec_platform sample_state 5 sample_buffer).1.

Definition second_data_segment : timestamped_segment_t :=
  calloc_timestamped
    (@create_new_data_segment spec_platform
       (@create_new_data_segment spec_platform sample_state 5
          sample_buffer).2 3 sample_buffer).1.

Definition state_two_queued : ctcp_state :=
  (@ctcp_read spec_platform state_one sample_state
     [(5, sample_buffer); (3, sample_buffer)] []).1.

(** The process in which the connection of [world_one] has read these two
    segments and started its output thread. *)
Definition world_two_queued : option world :=
  @ctcp_read_at spec_platform state_one
    [(5, sample_buffer); (3, sample_buffer)] [] world_one.

(** A connection configured with a send window of 40000 bytes that has one
    data segment queued. *)
Definition wide_window_config : ctcp_config_t :=
  {| recv_window := 3000; send_window := 40000;
     retransmission_timeout := 200; max_retransmissions := 5 |}.

Definition state_wide_window : ctcp_state :=
  {| next := None; prev := AtStateList; conn := 7%nat;
     config := wide_window_config; next_seq_no := 6;
     last_ack_sent := 0; last_ack_received := 0;
     is_output_thread_running := 1;
     outbound_segments_list := [first_data_segment];
     inflight_segments_list := [];
     received_segments_list := []; bytes_inflight := 0;
     outbound_list_intact := true; inflight_list_intact := true;
     received_list_intact := true |}.

(** A script of two reads, of five and of three bytes, followed by end of
    input. *)
Definition two_reads_then_eof : list (Z * list byte) :=
  [(5, sample_buffer); (3, sample_buffer); (-1, [])].

(** * Proofs *)

(** ** Bit-level facts about the byte swaps *)

Lemma testbit_byte_mask k n :
  0 <= k -> Z.testbit (Z.shiftl (Z.ones 8) k) n = (k <=? n) && (n <? k + 8).
Proof.
  intros Hk. destruct (Z.ltb_spec n 0) as [Hn|Hn].
  - rewrite Z.testbit_neg_r by lia. symmetry. apply andb_false_iff. left. apply Z.leb_gt. lia.
  - rewrite Z.shiftl_spec by lia.
    destruct (Z.leb_spec k n) as [H1|H1].
    + rewrite Z.testbit_ones by lia. 
      replace (0 <=? n - k) with true by (symmetry; apply Z.leb_le; lia).
      simpl. destruct (Z.ltb_spec (n - k) 8), (Z.ltb_spec n (k + 8)); auto; lia.
    + rewrite Z.testbit_neg_r by lia. reflexivity.
Qed.

Ltac split_ranges :=
  repeat match goal with
         | |- context [?a <=? ?b] => destruct (Z.leb_spec a b)
         | |- context [?a <? ?b] => destruct (Z.ltb_spec a b)
         end.

Lemma bswap_32_testbit x n :
  0 <= n ->
  Z.testbit (bswap_32 x) n =
    if n <? 8 then Z.testbit x (n + 24)
    else if n <? 16 then Z.testbit x (n + 8)
    else if n <? 24 then Z.testbit x (n - 8)
    else if n <? 32 then Z.testbit x (n - 24)
    else false.
Proof.
  intros Hn. unfold bswap_32.
  change 0xff000000 with (Z.shiftl (Z.ones 8) 24).
  change 0x00ff0000 with (Z.shiftl (Z.ones 8) 16).
  change 0x0000ff00 with (Z.shiftl (Z.ones 8) 8).
  change 0x000000ff with (Z.shiftl (Z.ones 8) 0).
  rewrite !Z.lor_spec, !Z.shiftr_spec, !Z.shiftl_spec, !Z.land_spec,
    !testbit_byte_mask by lia.
  split_ranges; simpl; rewrite ?andb_false_r, ?andb_true_r, ?orb_false_r; 
    try lia; try reflexivity; try (rewrite Z.testbit_neg_r by lia; reflexivity).
Qed.

Lemma bswap_16_testbit x n :
  0 <= n ->
  Z.testbit (bswap_16 x) n =
    if n <? 8 then Z.testbit x (n + 8)
    else if n <? 16 then Z.testbit x (n - 8)
    else false.
Proof.
  intros Hn. unfold bswap_16.
  change 0xff with (Z.shiftl (Z.ones 8) 0).
  rewrite !Z.lor_spec, !Z.land_spec, !Z.shiftr_spec, !testbit_byte_mask,
    !Z.shiftl_spec, !Z.land_spec, !testbit_byte_mask by lia.
  split_ranges; simpl; rewrite ?andb_false_r, ?andb_true_r, ?orb_false_r;
    try lia; try reflexivity; try (rewrite Z.testbit_neg_r by lia; reflexivity).
Qed.

Lemma testbit_above k x n :
  0 <= k -> 0 <= x < 2 ^ k -> k <= n -> Z.testbit x n = false.
Proof.
  intros Hk Hx Hn. rewrite <- (Z.mod_small x (2 ^ k)) by lia.
  apply Z.mod_pow2_bits_high. lia.
Qed.

Lemma range_of_testbit k x :
  0 <= k -> (forall n, k <= n -> Z.testbit x n = false) -> 0 <= x < 2 ^ k.
Proof.
  intros Hk H.
  assert (Hx : x = x mod 2 ^ k).
  { apply Z.bits_inj'. intros n Hn.
    destruct (Z.lt_ge_cases n k).
    - now rewrite Z.mod_pow2_bits_low.
    - rewrite Z.mod_pow2_bits_high by lia. now apply H. }
  rewrite Hx. apply Z.mod_pos_bound. lia.
Qed.

Lemma bswap_32_range x : 0 <= bswap_32 x < 2 ^ 32.
Proof.
  apply range_of_testbit; [lia|]. intros n Hn.
  rewrite bswap_32_testbit by lia. split_ranges; try lia; reflexivity.
Qed.

Lemma bswap_16_range x : 0 <= bswap_16 x < 2 ^ 16.
Proof.
  apply range_of_testbit; [lia|]. intros n Hn.
  rewrite bswap_16_testbit by lia. split_ranges; try lia; reflexivity.
Qed.

Lemma bswap_32_involutive x : 0 <= x < 2 ^ 32 -> bswap_32 (bswap_32 x) = x.
Proof.
  intros Hx. apply Z.bits_inj'. intros n Hn.
  rewrite bswap_32_testbit by lia.
  split_ranges; try lia; rewrite ?bswap_32_testbit by lia;
    split_ranges; try lia; try (f_equal; lia).
  symmetry. apply (testbit_above 32); lia.
Qed.

Lemma bswap_16_involutive x : 0 <= x < 2 ^ 16 -> bswap_16 (bswap_16 x) = x.
Proof.
  intros Hx. apply Z.bits_inj'. intros n Hn.
  rewrite bswap_16_testbit by lia.
  split_ranges; try lia; rewrite ?bswap_16_testbit by lia;
    split_ranges; try lia; try (f_equal; lia).
  symmetry. apply (testbit_above 16); lia.
Qed.

Lemma bswap_32_lor x y : bswap_32 (Z.lor x y) = Z.lor (bswap_32 x) (bswap_32 y).
Proof.
  apply Z.bits_inj'. intros n Hn.
  rewrite Z.lor_spec, !bswap_32_testbit by lia.
  split_ranges; rewrite ?Z.lor_spec; reflexivity.
Qed.

Lemma lor_range k x y :
  0 <= k -> 0 <= x < 2 ^ k -> 0 <= y < 2 ^ k -> 0 <= Z.lor x y < 2 ^ k.
Proof.
  intros Hk Hx Hy. apply range_of_testbit; [lia|]. intros n Hn.
  rewrite Z.lor_spec, (testbit_above k x), (testbit_above k y) by lia.
  reflexivity.
Qed.

Lemma land_lor_absorb x y : Z.land (Z.lor x y) x = x.
Proof.
  apply Z.bits_inj'. intros n Hn. rewrite Z.land_spec, Z.lor_spec.
  destruct (Z.testbit x n), (Z.testbit y n); reflexivity.
Qed.

Lemma to_u32_range x : 0 <= to_u32 x < 2 ^ 32.
Proof. unfold to_u32. apply Z.mod_pos_bound. lia. Qed.

Lemma to_u16_range x : 0 <= to_u16 x < 2 ^ 16.
Proof. unfold to_u16. apply Z.mod_pos_bound. lia. Qed.

Lemma to_u32_small x : 0 <= x < 2 ^ 32 -> to_u32 x = x.
Proof. intros. unfold to_u32. now apply Z.mod_small. Qed.

Lemma to_u16_small x : 0 <= x < 2 ^ 16 -> to_u16 x = x.
Proof. intros. unfold to_u16. now apply Z.mod_small. Qed.

Lemma to_int_small x : - 2 ^ 31 <= x <= INT_MAX -> to_int x = x.
Proof.
  unfold to_int, INT_MAX. intros. rewrite Z.mod_small by lia. lia.
Qed.

Lemma to_u32_to_int x : to_u32 (to_int x) = to_u32 x.
Proof.
  unfold to_u32, to_int.
  replace ((x + 2 ^ 31) mod 2 ^ 32 - 2 ^ 31)
    with (x + (- ((x + 2 ^ 31) / 2 ^ 32)) * 2 ^ 32).
  - apply Z.mod_add. lia.
  - rewrite (Z.mod_eq (x + 2 ^ 31)) by lia. lia.
Qed.

(** ** Byte order, [array_copy] and the two segment constructors *)

Section SegmentProofs.

Context `{P : Platform}.

Lemma htonl_range x : 0 <= htonl x < 2 ^ 32.
Proof.
  unfold htonl. destruct big_endian;
    [apply to_u32_range | apply bswap_32_range].
Qed.

Lemma htons_range x : 0 <= htons x < 2 ^ 16.
Proof.
  unfold htons. destruct big_endian;
    [apply to_u16_range | apply bswap_16_range].
Qed.

Lemma ntohl_htonl x : ntohl (htonl x) = to_u32 x.
Proof.
  unfold ntohl, htonl. destruct big_endian.
  - apply to_u32_small, to_u32_range.
  - rewrite (to_u32_small (bswap_32 _)) by apply bswap_32_range.
    apply bswap_32_involutive, to_u32_range.
Qed.

Lemma ntohs_htons x : ntohs (htons x) = to_u16 x.
Proof.
  unfold ntohs, htons. destruct big_endian.
  - apply to_u16_small, to_u16_range.
  - rewrite (to_u16_small (bswap_16 _)) by apply bswap_16_range.
    apply bswap_16_involutive, to_u16_range.
Qed.

Lemma ntohl_lor_htonl x y :
  ntohl (Z.lor (htonl x) (htonl y)) = Z.lor (to_u32 x) (to_u32 y).
Proof.
  pose proof (htonl_range x) as Hx. pose proof (htonl_range y) as Hy.
  unfold ntohl at 1. unfold htonl at 1.
  rewrite (to_u32_small (Z.lor _ _)) by (apply lor_range; lia).
  destruct big_endian eqn:E.
  - unfold htonl. rewrite E. reflexivity.
  - rewrite bswap_32_lor. unfold htonl. rewrite E.
    now rewrite !bswap_32_involutive by apply to_u32_range.
Qed.

Lemma array_copy_loop_spec (k i : nat) (to from : list byte) :
  length to = (i + k)%nat → (i + k ≤ length from)%nat →
  array_copy_loop k i to from = take i to ++ take k (drop i from).
Proof.
  revert i to. induction k as [|k IH]; intros i to Hto Hfrom; simpl.
  - rewrite take_0, app_nil_r, take_ge; [done | lia].
  - destruct (lookup_lt_is_Some_2 from i) as [b Hb]; [lia|].
    rewrite Hb, IH by (rewrite ?length_insert; lia).
    rewrite (take_S_r _ i b) by (apply list_lookup_insert_eq; lia).
    rewrite take_insert_ge by lia.
    rewrite (drop_S from b i Hb). simpl. now rewrite <- app_assoc.
Qed.

Lemma array_copy_malloc (from : list byte) (n : Z) :
  (Z.to_nat n ≤ length from)%nat →
  array_copy (malloc n) from n = take (Z.to_nat n) from.
Proof.
  intros Hn. unfold array_copy, malloc.
  rewrite array_copy_loop_spec by (rewrite ?length_replicate; lia).
  reflexivity.
Qed.

(** What [create_new_data_segment] stores, before any range assumption:
    every header field is the network-order image of the C expression
    assigned to it. *)
Lemma create_new_data_segment_fields state bytes_read buffer :
  let r := create_new_data_segment state bytes_read buffer in
  seqno r.1 = htonl (next_seq_no state) ∧
  ackno r.1 = htonl (last_ack_sent state) ∧
  len r.1 = htons (sizeof_ctcp_segment_t + bytes_read) ∧
  flags r.1 = htonl ACK ∧
  window r.1 = htons (recv_window (config state)) ∧
  data r.1 = array_copy (malloc bytes_read) buffer bytes_read ∧
  cksum r.1 = cksum_fn (header_block (set_cksum 0 r.1)) (ntohs (len r.1)) ∧
  r.2 = set_next_seq_no (to_int (next_seq_no state + bytes_read)) state.
Proof. repeat split. Qed.

Lemma has_flag_lor_l f f' g :
  flags g = Z.lor (htonl f) (htonl f') → has_flag f g.
Proof.
  intros E. unfold has_flag. rewrite E, ntohl_lor_htonl.
  apply land_lor_absorb.
Qed.

Lemma has_flag_lor_r f f' g :
  flags g = Z.lor (htonl f') (htonl f) → has_flag f g.
Proof.
  intros E. unfold has_flag. rewrite E, ntohl_lor_htonl, Z.lor_comm.
  apply land_lor_absorb.
Qed.

Lemma has_flag_single f g : flags g = htonl f → has_flag f g.
Proof.
  intros E. unfold has_flag. rewrite E, ntohl_htonl. apply Z.land_diag.
Qed.

(** The header of a data segment.  For every connection state and every
    non-empty payload of [bytes_read] bytes held in [buffer] that fits a
    segment, [create_new_data_segment] returns a segment whose [seqno] is
    the former [next_seq_no], advances [next_seq_no] by exactly
    [bytes_read] and changes nothing else in the state, sets [ackno] to
    [last_ack_sent], sets the ACK flag, sets [window] to the configured
    [recv_window], sets [len] to the header size plus [bytes_read] and
    refers to a copy of the first [bytes_read] bytes of [buffer].
    Sequence and acknowledgment numbers are 32-bit: the equalities on them
    hold modulo [2 ^ 32] for every state, and as written while the [int]
    counters are not negative and do not overflow.  The checksum stored is
    the one [cksum] gives for the header block and that length. *)
Lemma create_new_data_segment_header state bytes_read buffer :
  0 < bytes_read →
  bytes_read ≤ Z.of_nat (length buffer) →
  0 ≤ recv_window (config state) < 2 ^ 16 →
  0 ≤ sizeof_ctcp_segment_t →
  sizeof_ctcp_segment_t + bytes_read < 2 ^ 16 →
  let r := create_new_data_segment state bytes_read buffer in
  ntohl (seqno r.1) = to_u32 (next_seq_no state) ∧
  to_u32 (next_seq_no r.2) = to_u32 (next_seq_no state + bytes_read) ∧
  r.2 = set_next_seq_no (to_int (next_seq_no state + bytes_read)) state ∧
  (0 ≤ next_seq_no state → next_seq_no state + bytes_read ≤ INT_MAX →
     ntohl (seqno r.1) = next_seq_no state ∧
     next_seq_no r.2 = next_seq_no state + bytes_read) ∧
  ntohl (ackno r.1) = to_u32 (last_ack_sent state) ∧
  (0 ≤ last_ack_sent state ≤ INT_MAX →
     ntohl (ackno r.1) = last_ack_sent state) ∧
  has_flag ACK r.1 ∧
  ntohs (window r.1) = recv_window (config state) ∧
  ntohs (len r.1) = sizeof_ctcp_segment_t + bytes_read ∧
  data r.1 = take (Z.to_nat bytes_read) buffer ∧
  Z.of_nat (length (data r.1)) = bytes_read ∧
  cksum r.1 =
    cksum_fn (header_block (set_cksum 0 r.1))
      (sizeof_ctcp_segment_t + bytes_read).
Proof.
  intros Hpos Hbuf Hwin Hsz Hlen r.
  destruct (create_new_data_segment_fields state bytes_read buffer)
    as (Eseq & Eack & Elen & Efl & Ewin & Edata & Eck & Est).
  fold r in Eseq, Eack, Elen, Efl, Ewin, Edata, Eck, Est.
  assert (Hnl : ntohs (len r.1) = sizeof_ctcp_segment_t + bytes_read).
  { rewrite Elen, ntohs_htons. apply to_u16_small. lia. }
  assert (Hd : data r.1 = take (Z.to_nat bytes_read) buffer).
  { rewrite Edata. apply array_copy_malloc. lia. }
  split. { by rewrite Eseq, ntohl_htonl. }
  split. { rewrite Est. simpl. apply to_u32_to_int. }
  split; [exact Est|].
  split.
  { intros Hseq Hmax. unfold INT_MAX in Hmax. split.
    - rewrite Eseq, ntohl_htonl. apply to_u32_small. lia.
    - rewrite Est. simpl. apply to_int_small. unfold INT_MAX. lia. }
  split. { by rewrite Eack, ntohl_htonl. }
  split.
  { intros Hack. unfold INT_MAX in Hack.
    rewrite Eack, ntohl_htonl. apply to_u32_small. lia. }
  split. { now apply has_flag_single. }
  split. { rewrite Ewin, ntohs_htons. now apply to_u16_small. }
  split; [exact Hnl|]. split; [exact Hd|].
  split. { rewrite Hd, length_take. lia. }
  now rewrite Eck, Hnl.
Qed.

(** The checksum [create_new_data_segment] stores is computed from the
    header block alone: two payloads of the same length get the same
    checksum. *)
Lemma create_new_data_segment_cksum_payload state bytes_read buffer buffer' :
  let g := (create_new_data_segment state bytes_read buffer).1 in
  let g' := (create_new_data_segment state bytes_read buffer').1 in
  cksum g = cksum_fn (header_block (set_cksum 0 g)) (ntohs (len g)) ∧
  header_block (set_cksum 0 g) = header_block (set_cksum 0 g') ∧
  cksum g = cksum g'.
Proof. repeat split. Qed.

Lemma create_new_fin_segment_fields state :
  let g := create_new_fin_segment state in
  seqno g = htonl (next_seq_no state) ∧
  ackno g = htonl (last_ack_sent state) ∧
  len g = htons sizeof_ctcp_segment_t ∧
  flags g = Z.lor (htonl ACK) (htonl FIN) ∧
  window g = htons (recv_window (config state)) ∧
  data g = [] ∧
  cksum g = cksum_fn (set_cksum 0 g) (ntohs (len g)).
Proof. repeat split. Qed.

Lemma same_outside_sending_refl s : same_outside_sending s s.
Proof. repeat split. Qed.

Lemma same_outside_sending_trans s1 s2 s3 :
  same_outside_sending s1 s2 → same_outside_sending s2 s3 →
  same_outside_sending s1 s3.
Proof.
  unfold same_outside_sending. intros H12 H23.
  destruct_and!. repeat split; congruence.
Qed.

(** The loop of [ctcp_read]: it pushes data segments on the front of the
    outbound list, its only external calls are [pthread_create], and it
    stops on a return value of [conn_input] that is not positive. *)
Lemma ctcp_read_loop_spec self inputs :
  ∀ state need creates s1 br evs,
    ctcp_read_loop self state need inputs creates = (s1, br, evs) →
    same_outside_sending state s1 ∧
    br ≤ 0 ∧
    (∃ news, outbound_segments_list s1 = news ++ outbound_segments_list state
             ∧ Forall queued_data_segment news) ∧
    Forall (λ e, ∃ rc, e = ev_pthread_create self rc) evs.
Proof.
  induction inputs as [|[bytes_read buffer] inputs IH];
    intros state need creates s1 br evs Hloop; simpl in Hloop.
  - inversion Hloop; subst. split; [apply same_outside_sending_refl|].
    split; [lia|]. split; [by exists [] | constructor].
  - destruct (Z.gtb_spec bytes_read 0) as [Hpos|Hnpos].
    2:{ inversion Hloop; subst. split; [apply same_outside_sending_refl|].
        split; [lia|]. split; [by exists [] | constructor]. }
    set (st1 := set_outbound_segments_list _ _) in Hloop.
    assert (Hst1 : same_outside_sending state st1) by (repeat split).
    assert (Hout1 : ∃ ts, outbound_segments_list st1
                          = ts :: outbound_segments_list state
                          ∧ queued_data_segment ts).
    { eexists. split; [reflexivity | split; reflexivity]. }
    destruct Hout1 as (ts & Hout1 & Hts).
    assert (Hgen : ∀ st2 need2 creates2 s1' br' evs',
      same_outside_sending st1 st2 →
      outbound_segments_list st2 = outbound_segments_list st1 →
      ctcp_read_loop self st2 need2 inputs creates2 = (s1', br', evs') →
      same_outside_sending state s1' ∧ br' ≤ 0 ∧
      (∃ news, outbound_segments_list s1'
               = news ++ outbound_segments_list state
               ∧ Forall queued_data_segment news) ∧
      Forall (λ e, ∃ rc, e = ev_pthread_create self rc) evs').
    { intros st2 need2 creates2 s1' br' evs' H12 Ho Hl.
      destruct (IH _ _ _ _ _ _ Hl) as (Hs & Hbr & (news & Hn & Hf) & Hev).
      split; [eauto using same_outside_sending_trans|].
      split; [done|]. split; [|done].
      exists (news ++ [ts]). rewrite Hn, Ho, Hout1, <- app_assoc.
      split; [done|]. apply Forall_app. split; [done|]. by constructor. }
    destruct (need =? 0).
    { eapply Hgen; [apply same_outside_sending_refl | done | exact Hloop]. }
    destruct (is_output_thread_running _ =? 0).
    2:{ eapply Hgen; [apply same_outside_sending_refl | done | exact Hloop]. }
    destruct (ctcp_read_loop self _ _ inputs (tl creates))
      as [[s1' br'] evs'] eqn:Hl.
    inversion Hloop; subst.
    assert (Hrec : same_outside_sending state s1 ∧ br ≤ 0 ∧
      (∃ news, outbound_segments_list s1
               = news ++ outbound_segments_list state
               ∧ Forall queued_data_segment news) ∧
      Forall (λ e, ∃ rc, e = ev_pthread_create self rc) evs').
    { eapply Hgen; [| | exact Hl].
      - destruct (to_short (hd 0 creates) =? 0); repeat split.
      - destruct (to_short (hd 0 creates) =? 0); reflexivity. }
    destruct Hrec as (? & ? & ? & ?). do 3 (split; [done|]).
    constructor; [by eexists | done].
Qed.

Lemma ctcp_read_unfold self state inputs creates :
  ∃ s1 br evs news,
    ctcp_read_loop self state 1 inputs creates = (s1, br, evs) ∧
    ctcp_read self state inputs creates = (ctcp_read_eof s1 br, evs) ∧
    br ≤ 0 ∧
    same_outside_sending state s1 ∧
    outbound_segments_list s1 = news ++ outbound_segments_list state ∧
    Forall queued_data_segment news ∧
    Forall (λ e, ∃ rc, e = ev_pthread_create self rc) evs.
Proof.
  unfold ctcp_read.
  destruct (ctcp_read_loop self state 1 inputs creates)
    as [[s1 br] evs] eqn:Hl.
  destruct (ctcp_read_loop_spec _ _ _ _ _ _ _ _ Hl)
    as (Hs & Hbr & (news & Hn & Hf) & Hev).
  by exists s1, br, evs, news.
Qed.

Lemma ctcp_read_loop_terminating self inputs :
  ∀ state need creates s1 br evs,
    ctcp_read_loop self state need inputs creates = (s1, br, evs) →
    br = terminating_read inputs.
Proof.
  induction inputs as [|[bytes_read buffer] inputs IH];
    intros state need creates s1 br evs Hloop; simpl in Hloop.
  - by inversion Hloop.
  - simpl. destruct (bytes_read >? 0); [|by inversion Hloop].
    destruct (need =? 0); [by eapply IH|].
    destruct (is_output_thread_running _ =? 0); [|by eapply IH].
    destruct (ctcp_read_loop self _ _ inputs (tl creates))
      as [[s1' br'] evs'] eqn:Hl.
    inversion Hloop; subst. by eapply IH.
Qed.

(** C3, as amended.  For every connection state,
    [create_new_fin_segment] returns a segment with no payload (its [len]
    is the header size), with the ACK and FIN flags set, with [seqno]
    equal to the current [next_seq_no] and [ackno] equal to
    [last_ack_sent] (as 32-bit numbers); creating it leaves
    [next_seq_no] as it is.  In [ctcp_read] a FIN is created by the branch
    after the loop, exactly when the value of [conn_input] that ended the
    loop ([terminating_read]) is -1, once per call: the outbound list then
    gains that FIN in front of the data segments of the loop, and gains
    the data segments only on any other value. *)
Theorem create_new_fin_segment_spec state :
  0 ≤ sizeof_ctcp_segment_t < 2 ^ 16 →
  let g := create_new_fin_segment state in
  data g = [] ∧
  ntohs (len g) = sizeof_ctcp_segment_t ∧
  payload_length (calloc_timestamped g) = 0 ∧
  has_flag ACK g ∧
  has_flag FIN g ∧
  ntohl (seqno g) = to_u32 (next_seq_no state) ∧
  ntohl (ackno g) = to_u32 (last_ack_sent state) ∧
  (0 ≤ next_seq_no state ≤ INT_MAX → ntohl (seqno g) = next_seq_no state) ∧
  (0 ≤ last_ack_sent state ≤ INT_MAX →
     ntohl (ackno g) = last_ack_sent state) ∧
  ctcp_read_eof state (-1) =
    set_outbound_segments_list
      (calloc_timestamped g :: outbound_segments_list state) state ∧
  next_seq_no (ctcp_read_eof state (-1)) = next_seq_no state ∧
  (∀ bytes_read, bytes_read ≠ -1 → ctcp_read_eof state bytes_read = state) ∧
  (∀ self start inputs creates, ∃ s1 evs news,
      ctcp_read self start inputs creates
        = (ctcp_read_eof s1 (terminating_read inputs), evs) ∧
      outbound_segments_list s1 = news ++ outbound_segments_list start ∧
      Forall queued_data_segment news ∧
      outbound_segments_list (ctcp_read self start inputs creates).1
        = (if terminating_read inputs =? -1
           then [calloc_timestamped (create_new_fin_segment s1)]
           else [])
          ++ news ++ outbound_segments_list start).
Proof.
  intros Hsz g.
  destruct (create_new_fin_segment_fields state)
    as (Eseq & Eack & Elen & Efl & Ewin & Edata & Eck).
  fold g in Eseq, Eack, Elen, Efl, Ewin, Edata, Eck.
  assert (Hnl : ntohs (len g) = sizeof_ctcp_segment_t).
  { rewrite Elen, ntohs_htons. now apply to_u16_small. }
  split; [exact Edata|]. split; [exact Hnl|].
  split.
  { unfold payload_length.
    change (segment (calloc_timestamped g)) with g. lia. }
  split. { eapply has_flag_lor_l, Efl. }
  split. { eapply has_flag_lor_r, Efl. }
  split. { by rewrite Eseq, ntohl_htonl. }
  split. { by rewrite Eack, ntohl_htonl. }
  split.
  { intros Hseq. unfold INT_MAX in Hseq.
    rewrite Eseq, ntohl_htonl. apply to_u32_small. lia. }
  split.
  { intros Hack. unfold INT_MAX in Hack.
    rewrite Eack, ntohl_htonl. apply to_u32_small. lia. }
  split; [reflexivity|]. split; [reflexivity|].
  split.
  { intros bytes_read Hne. unfold ctcp_read_eof.
    destruct (Z.eqb_spec bytes_read (-1)); [lia | reflexivity]. }
  intros self start inputs creates.
  destruct (ctcp_read_unfold self start inputs creates)
    as (s1 & br & evs & news & Hl & Hr & Hbr & _ & Hn & Hf & _).
  apply ctcp_read_loop_terminating in Hl as ->.
  exists s1, evs, news. split; [done|]. split; [done|]. split; [done|].
  rewrite Hr. simpl. unfold ctcp_read_eof.
  destruct (terminating_read inputs =? -1); simpl; by rewrite Hn.
Qed.

(** C10.  When the loop of [ctcp_read] ends on [conn_input] returning -1,
    the call adds exactly one timestamped FIN segment to the front of the
    outbound list and that branch changes nothing else: the external calls
    of the whole call are those of the loop (none of them [conn_send]),
    and [is_output_thread_running], [next_seq_no] and every other field
    are those the loop left.  When end of input is met at once, the state
    differs from the initial one in the outbound list only and no external
    call is made, so a FIN queued while no sending task runs is not
    transmitted by this call. *)
Theorem ctcp_read_eof_branch self state inputs creates s1 evs :
  ctcp_read_loop self state 1 inputs creates = (s1, -1, evs) →
  let fin := calloc_timestamped (create_new_fin_segment s1) in
  let r := ctcp_read self state inputs creates in
  r = (set_outbound_segments_list (fin :: outbound_segments_list s1) s1,
       evs) ∧
  has_flag FIN (segment fin) ∧
  time_when_sent fin = 0 ∧
  outbound_segments_list r.1 = fin :: outbound_segments_list s1 ∧
  is_output_thread_running r.1 = is_output_thread_running s1 ∧
  next_seq_no r.1 = next_seq_no s1 ∧
  same_outside_sending s1 r.1 ∧
  started_threads r.2 = started_threads evs ∧
  (∀ c g, ev_conn_send c g ∉ r.2) ∧
  (∀ buffer rest, inputs = (-1, buffer) :: rest →
     s1 = state ∧ r.2 = [] ∧ started_threads r.2 = [] ∧
     is_output_thread_running r.1 = is_output_thread_running state ∧
     next_seq_no r.1 = next_seq_no state).
Proof.
  intros Hloop fin r.
  assert (Hr : r = (set_outbound_segments_list
                      (fin :: outbound_segments_list s1) s1, evs)).
  { unfold r, ctcp_read. rewrite Hloop. reflexivity. }
  destruct (ctcp_read_loop_spec _ _ _ _ _ _ _ _ Hloop)
    as (_ & _ & _ & Hev).
  rewrite Hr. simpl.
  split; [reflexivity|].
  split. { eapply has_flag_lor_r. reflexivity. }
  split; [reflexivity|]. split; [reflexivity|].
  split; [reflexivity|]. split; [reflexivity|].
  split; [repeat split|]. split; [reflexivity|].
  split.
  { intros c g Hin. rewrite Forall_forall in Hev.
    destruct (Hev _ Hin) as [rc Hrc]. discriminate. }
  intros buffer rest ->. simpl in Hloop. inversion Hloop; subst. done.
Qed.

End SegmentProofs.

(** ** [ctcp_init] and [ctcp_destroy] on the heap *)

Lemma same_protocol_state_refl s : same_protocol_state s s.
Proof. repeat split. Qed.

Lemma lookup_alter_links (f : ctcp_state → ctcp_state)
    (h : gmap addr ctcp_state) a b st' :
  (∀ s, same_protocol_state s (f s)) →
  alter f a h !! b = Some st' →
  ∃ st, h !! b = Some st ∧ same_protocol_state st st'.
Proof.
  intros Hf. rewrite lookup_alter. case_decide as Hab.
  - subst. destruct (h !! b) as [st|]; [|done]. simpl.
    intros [= <-]. eauto.
  - intros Hb. eauto using same_protocol_state_refl.
Qed.

Lemma same_protocol_state_trans s1 s2 s3 :
  same_protocol_state s1 s2 → same_protocol_state s2 s3 →
  same_protocol_state s1 s3.
Proof.
  unfold same_protocol_state. intros H12 H23.
  destruct_and!. repeat split; congruence.
Qed.

Lemma ctcp_init_fresh c cfg w :
  ∃ a, (ctcp_init (Some c) cfg w).1 = Some a ∧ heap w !! a = None ∧
       a = fresh (dom (heap w)).
Proof.
  eexists. split; [reflexivity|]. split; [|reflexivity].
  apply not_elem_of_dom, is_fresh.
Qed.

(** Every state in the heap after [ctcp_init] is either an old state, up
    to its links, or the new state. *)
Lemma ctcp_init_lookup c cfg w b st' :
  heap (ctcp_init (Some c) cfg w).2 !! b = Some st' →
  (∃ st, heap w !! b = Some st ∧ same_protocol_state st st') ∨
  (heap w !! b = None ∧ b = fresh (dom (heap w)) ∧
   conn st' = c ∧ config st' = cfg ∧
   next_seq_no st' = INITIAL_SEQ_NO ∧ last_ack_sent st' = 0 ∧
   last_ack_received st' = 0 ∧ is_output_thread_running st' = 0 ∧
   outbound_segments_list st' = [] ∧ inflight_segments_list st' = [] ∧
   received_segments_list st' = [] ∧ bytes_inflight st' = 0 ∧
   outbound_list_intact st' = false ∧ inflight_list_intact st' = false ∧
   received_list_intact st' = false).
Proof.
  destruct (ctcp_init_fresh c cfg w) as (a & _ & Hfresh & ->).
  simpl. set (a := fresh (dom (heap w))) in *.
  set (st0 := ctcp_init_state _ _ _).
  assert (Hins : ∀ st1, <[a := st0]> (heap w) !! b = Some st1 →
    (∃ st, heap w !! b = Some st ∧ same_protocol_state st st1) ∨
    (heap w !! b = None ∧ b = a ∧ st1 = st0)).
  { intros st1. rewrite lookup_insert. case_decide as Hab.
    - subst b. intros [= <-]. by right.
    - intros Hb. left. eauto using same_protocol_state_refl. }
  intros Hb.
  assert (Hst : ∃ st1, <[a := st0]> (heap w) !! b = Some st1 ∧
                       same_protocol_state st1 st').
  { destruct (state_list w) as [old|].
    - eapply lookup_alter_links, Hb. intros s. repeat split.
    - eauto using same_protocol_state_refl. }
  destruct Hst as (st1 & Hb1 & Hsame).
  destruct (Hins _ Hb1) as [(st & Hst & Hs)|(Hnone & -> & ->)].
  - left. eauto using same_protocol_state_trans.
  - right. unfold same_protocol_state in Hsame. simpl in Hsame.
    destruct_and!. by repeat split.
Qed.

Lemma store_through_lookup l v (h : gmap addr ctcp_state) sl b st' :
  (store_through l v h sl).1 !! b = Some st' →
  ∃ st, h !! b = Some st ∧ same_protocol_state st st'.
Proof.
  destruct l as [|p]; simpl.
  - eauto using same_protocol_state_refl.
  - apply lookup_alter_links. intros s. repeat split.
Qed.

(** Every state left in the heap by [ctcp_destroy] is an old state, up to
    its links. *)
Lemma ctcp_destroy_lookup a w w' b st' :
  ctcp_destroy a w = Some w' →
  heap w' !! b = Some st' →
  b ≠ a ∧ ∃ st, heap w !! b = Some st ∧ same_protocol_state st st'.
Proof.
  unfold ctcp_destroy. destruct (heap w !! a) as [sta|] eqn:Ha; [|done].
  destruct (store_through _ _ _ _) as [h2 sl2] eqn:Hst.
  intros [= <-]. simpl. rewrite lookup_delete. case_decide as Hab; [done|].
  intros Hb. split; [done|].
  assert (Hb2 : (store_through (prev sta) (next sta)
           (match next sta with
            | Some n => alter (set_prev (prev sta)) n (heap w)
            | None => heap w
            end) (state_list w)).1 !! b = Some st') by (by rewrite Hst).
  apply store_through_lookup in Hb2 as (st1 & Hb1 & Hs1).
  assert (∃ st, heap w !! b = Some st ∧ same_protocol_state st st1)
    as (st & Hb0 & Hs0).
  { destruct (next sta).
    - eapply lookup_alter_links, Hb1. intros s. repeat split.
    - eauto using same_protocol_state_refl. }
  eauto using same_protocol_state_trans.
Qed.

(** ** The registry: list segments in the heap *)

Lemma dseg_in_heap h pp p l a :
  dseg h pp p l → a ∈ l → is_Some (h !! a).
Proof.
  revert pp p. induction l as [|b l IH]; intros pp p Hd Ha.
  - by apply elem_of_nil in Ha.
  - destruct Hd as (_ & st & Hb & _ & Hd).
    apply elem_of_cons in Ha as [->|Ha]; [by eexists | eauto].
Qed.

(** A list segment only depends on the states it visits. *)
Lemma dseg_frame h h' pp p l :
  (∀ a, a ∈ l → h' !! a = h !! a) → dseg h pp p l → dseg h' pp p l.
Proof.
  revert pp p. induction l as [|b l IH]; intros pp p Hsame Hd; [done|].
  destruct Hd as (Hp & st & Hb & Hprev & Hd).
  split; [done|]. exists st. split.
  - rewrite Hsame; [done | by left].
  - split; [done|]. apply IH; [|done]. intros a Ha. apply Hsame. by right.
Qed.

Lemma dseg_next_head h pp p l : dseg h pp p l → p = head l.
Proof. destruct l; [done | by intros [-> _]]. Qed.

(** The state in the middle of a list segment: its [prev] points at the
    [next] field of its predecessor (or at the location the segment hangs
    from), its [next] at its successor. *)
Lemma dseg_split h pp p l1 a l2 :
  dseg h pp p (l1 ++ a :: l2) →
  ∃ st, h !! a = Some st ∧
        prev st = from_option AtNextOf pp (last l1) ∧
        next st = head l2 ∧
        dseg h (AtNextOf a) (next st) l2.
Proof.
  revert pp p. induction l1 as [|c l1 IH]; intros pp p Hd; simpl in Hd.
  - destruct Hd as (_ & st & Ha & Hprev & Hd). exists st.
    repeat split; try done. by eapply dseg_next_head.
  - destruct Hd as (_ & stc & Hc & _ & Hd).
    destruct (IH _ _ Hd) as (st & Ha & Hprev & Hnext & Hd2).
    exists st. repeat split; try done.
    rewrite Hprev, last_cons. by destruct (last l1).
Qed.

(** *** [ctcp_init] pushes the new state on the front *)

Lemma ctcp_init_registry c cfg w l :
  registry w l →
  registry (ctcp_init (Some c) cfg w).2 (fresh (dom (heap w)) :: l).
Proof.
  intros [Hd Hnd]. simpl.
  set (a := fresh (dom (heap w))).
  set (st0 := ctcp_init_state _ _ _).
  assert (Hfresh : heap w !! a = None) by apply not_elem_of_dom, is_fresh.
  assert (Hout : ∀ b, b ∈ l → b ≠ a).
  { intros b Hb ->. destruct (dseg_in_heap _ _ _ _ _ Hd Hb). congruence. }
  split; [|apply NoDup_cons; split; [|done]; intros Ha; by eapply Hout].
  simpl. split; [done|].
  destruct l as [|old l]; simpl in Hd.
  - rewrite Hd. exists st0. rewrite lookup_insert_eq.
    by repeat split.
  - destruct Hd as (Hsl & sto & Hold & Hprev & Hd). rewrite Hsl.
    assert (old ≠ a) by (apply Hout; by left).
    exists st0. rewrite lookup_alter_ne, lookup_insert_eq by done.
    split; [done|]. split; [done|]. simpl. rewrite Hsl.
    split; [done|]. exists (set_prev (AtNextOf a) sto).
    rewrite lookup_alter_eq, lookup_insert_ne, Hold by done.
    split; [done|]. split; [done|]. simpl.
    eapply dseg_frame; [|exact Hd]. intros b Hb.
    apply NoDup_cons in Hnd as [Hnotin _].
    rewrite lookup_alter_ne, lookup_insert_ne; [done| |].
    + intros <-. eapply Hout; [|done]. by right.
    + by intros ->.
Qed.

(** *** [ctcp_destroy] unlinks its state *)

Section Unlink.

Variables (h : gmap addr ctcp_state) (sl : option addr) (st : ctcp_state).

Let h1 : gmap addr ctcp_state :=
  match next st with
  | Some n => alter (set_prev (prev st)) n h
  | None => h
  end.

Let h2 : gmap addr ctcp_state :=
  (store_through (prev st) (next st) h1 sl).1.

Lemma unlink_lookup_other b :
  next st ≠ Some b → prev st ≠ AtNextOf b → h2 !! b = h !! b.
Proof.
  intros Hn Hp. unfold h2, h1, store_through.
  destruct (prev st) as [|q]; simpl.
  - destruct (next st) as [n|]; [|done].
    rewrite lookup_alter_ne; [done | congruence].
  - rewrite lookup_alter_ne by congruence.
    destruct (next st) as [n|]; [|done].
    rewrite lookup_alter_ne; [done | congruence].
Qed.

Lemma unlink_lookup_successor b stb :
  next st = Some b → prev st ≠ AtNextOf b → h !! b = Some stb →
  h2 !! b = Some (set_prev (prev st) stb).
Proof.
  intros Hn Hp Hb. unfold h2, h1, store_through. rewrite Hn.
  destruct (prev st) as [|q]; simpl.
  - by rewrite lookup_alter_eq, Hb.
  - rewrite lookup_alter_ne by congruence.
    by rewrite lookup_alter_eq, Hb.
Qed.

Lemma unlink_lookup_predecessor b stb :
  prev st = AtNextOf b → next st ≠ Some b → h !! b = Some stb →
  h2 !! b = Some (set_next (next st) stb).
Proof.
  intros Hp Hn Hb. unfold h2, h1, store_through. rewrite Hp. simpl.
  rewrite lookup_alter_eq. destruct (next st) as [n|].
  - rewrite lookup_alter_ne by congruence. by rewrite Hb.
  - by rewrite Hb.
Qed.

Lemma dseg_unlink pp p l1 a l2 :
  dseg h pp p (l1 ++ a :: l2) →
  NoDup (l1 ++ a :: l2) →
  (∀ q, pp = AtNextOf q → q ∉ l1 ++ a :: l2) →
  h !! a = Some st →
  dseg (delete a h2) pp (if l1 is [] then next st else p) (l1 ++ l2).
Proof.
  revert pp p. induction l1 as [|c l1 IH]; intros pp p Hd Hnd Hpp Ha.
  - simpl in *. destruct Hd as (_ & st' & Ha' & Hprev & Hd).
    assert (st' = st) as -> by congruence.
    apply NoDup_cons in Hnd as [Hal2 Hnd2].
    destruct l2 as [|n l2]; simpl in *; [done|].
    destruct Hd as (Hnext & stn & Hn & Hprevn & Hd).
    apply NoDup_cons in Hnd2 as [Hnl2 Hnd2].
    assert (n ≠ a) by (intros ->; apply Hal2; by left).
    split; [done|]. exists (set_prev pp stn).
    rewrite lookup_delete_ne by done.
    rewrite (unlink_lookup_successor n stn), Hprev; try done.
    2:{ rewrite Hprev. intros ->. eapply Hpp; [done|]. right. by left. }
    split; [done|]. split; [done|]. simpl.
    eapply dseg_frame; [|exact Hd]. intros b Hb.
    rewrite lookup_delete_ne by (intros ->; apply Hal2; by right).
    apply unlink_lookup_other.
    + rewrite Hnext. intros [= ->]. done.
    + rewrite Hprev. intros ->. eapply Hpp; [done|]. right. by right.
  - simpl in Hd. destruct Hd as (Hp & stc & Hc & Hprevc & Hd).
    apply NoDup_cons in Hnd as [Hcl Hnd].
    destruct (dseg_split _ _ _ _ _ _ Hd) as (st' & Ha' & Hprev & Hnext & _).
    assert (st' = st) as -> by congruence.
    assert (c ≠ a) by (intros ->; apply Hcl, elem_of_app; right; by left).
    assert (Hnc : next st ≠ Some c).
    { rewrite Hnext. destruct l2 as [|n l2]; [done|]. simpl. intros [= ->].
      apply Hcl, elem_of_app. right. right. by left. }
    specialize (IH (AtNextOf c) (next stc) Hd Hnd).
    assert (Hout : ∀ q, AtNextOf c = AtNextOf q → q ∉ l1 ++ a :: l2)
      by (by intros q [= <-]).
    specialize (IH Hout Ha).
    assert (Hcl1 : c ∉ l1) by (intros Hin; apply Hcl, elem_of_app; by left).
    simpl. split; [done|].
    destruct l1 as [|x l1].
    + simpl in Hprev. exists (set_next (next st) stc).
      rewrite lookup_delete_ne by done.
      rewrite (unlink_lookup_predecessor c stc) by done.
      split; [done|]. split; [done | exact IH].
    + exists stc. rewrite lookup_delete_ne by done.
      rewrite unlink_lookup_other;
        [split; [done|]; split; [done | exact IH] | done |].
      rewrite Hprev. destruct (last (x :: l1)) as [y|] eqn:Hy; simpl.
      * intros [= ->]. by apply Hcl1, last_Some_elem_of.
      * by apply last_None in Hy.
Qed.

End Unlink.

Lemma ctcp_destroy_registry a w l1 l2 :
  registry w (l1 ++ a :: l2) →
  ∃ w', ctcp_destroy a w = Some w' ∧ registry w' (l1 ++ l2) ∧
        heap w' !! a = None.
Proof.
  intros [Hd Hnd].
  destruct (dseg_split _ _ _ _ _ _ Hd) as (st & Ha & Hprev & Hnext & _).
  unfold ctcp_destroy. rewrite Ha.
  destruct (store_through _ _ _ _) as [h2 sl2] eqn:Hst.
  eexists. split; [reflexivity|]. simpl.
  split; [|by rewrite lookup_delete_eq]. split.
  - simpl.
    pose proof (dseg_unlink (heap w) (state_list w) st AtStateList
                  (state_list w) l1 a l2 Hd Hnd) as Hun.
    rewrite Hst in Hun. simpl in Hun.
    assert (Hsl : sl2 = if l1 is [] then next st else state_list w).
    { assert (sl2 = (store_through (prev st) (next st)
                (match next st with
                 | Some n => alter (set_prev (prev st)) n (heap w)
                 | None => heap w
                 end) (state_list w)).2) as -> by (by rewrite Hst).
      rewrite Hprev. destruct l1 as [|c l1]; [done|].
      destruct (last (c :: l1)) eqn:Hl; [done|]. by apply last_None in Hl. }
    rewrite Hsl. apply Hun; [done | done].
  - apply NoDup_app in Hnd as (H1 & H12 & H2).
    apply NoDup_cons in H2 as [_ H2]. apply NoDup_app. repeat split; try done.
    intros x Hx Hx2. eapply H12; [done|]. by right.
Qed.

(** *** What [ctcp_init] and [ctcp_destroy] guarantee *)

(** The state [ctcp_init] allocates for a handle that is not [NULL]: its
    address was not in use, its fields are those of [ctcp_init_state], and
    it is the new head of the list of active states. *)
Lemma ctcp_init_new_state c cfg w :
  let r := ctcp_init (Some c) cfg w in
  ∃ a st,
    r.1 = Some a ∧
    heap w !! a = None ∧
    heap r.2 !! a = Some st ∧
    conn st = c ∧ config st = cfg ∧
    next_seq_no st = INITIAL_SEQ_NO ∧
    last_ack_sent st = 0 ∧
    last_ack_received st = 0 ∧
    bytes_inflight st = 0 ∧
    is_output_thread_running st = 0 ∧
    outbound_segments_list st = [] ∧
    inflight_segments_list st = [] ∧
    received_segments_list st = [] ∧
    outbound_list_intact st = false ∧
    inflight_list_intact st = false ∧
    received_list_intact st = false ∧
    state_list r.2 = Some a ∧
    next st = state_list w ∧
    (∀ l, registry w l → registry r.2 (a :: l)).
Proof.
  intros r. destruct (ctcp_init_fresh c cfg w) as (a & Hr & Hfresh & Ha).
  assert (∃ st, heap r.2 !! a = Some st) as [st Hst].
  { unfold r. subst a. simpl. destruct (state_list w) as [old|].
    - rewrite lookup_alter. case_decide; simplify_eq;
        rewrite lookup_insert_eq; by eexists.
    - rewrite lookup_insert_eq. by eexists. }
  assert (Hnext : next st = state_list w).
  { unfold r in Hst. subst a. simpl in Hst.
    destruct (state_list w) as [old|].
    - rewrite lookup_alter in Hst.
      case_decide as Hold; [rewrite Hold in Hst|];
        rewrite lookup_insert_eq in Hst; simpl in Hst;
        injection Hst as <-; simpl; congruence.
    - rewrite lookup_insert_eq in Hst. by injection Hst as <-. }
  exists a, st. split; [done|]. split; [done|]. split; [done|].
  pose proof Hst as Hst'. unfold r in Hst'.
  apply ctcp_init_lookup in Hst' as [(? & ? & _)|(_ & _ & Hnew)];
    [congruence|].
  destruct Hnew as (? & ? & ? & ? & ? & ? & ? & ? & ? & ? & ? & ? & ?).
  do 13 (split; [done|]). split; [by subst a|]. split; [done|].
  intros l Hl. subst a. by apply ctcp_init_registry.
Qed.

(** C7, on the code.  For a connection handle that is not [NULL] and any
    configuration, [ctcp_init] allocates a state, returns it, initialises
    [next_seq_no] to [INITIAL_SEQ_NO] and [last_ack_sent],
    [last_ack_received] and [bytes_inflight] to zero and makes the state
    the head of the list of active states.  It creates the three lists
    empty, but each between a lock and an unlock taken on the address of
    the list's own pointer field: none of the three pointers is intact
    when [ctcp_init] returns, so the state has no outbound, inflight or
    received list that can be reached. *)
Theorem ctcp_init_damages_list_pointers c cfg w :
  let r := ctcp_init (Some c) cfg w in
  ∃ a st,
    r.1 = Some a ∧
    heap r.2 !! a = Some st ∧
    state_list r.2 = Some a ∧
    next_seq_no st = INITIAL_SEQ_NO ∧
    last_ack_sent st = 0 ∧
    last_ack_received st = 0 ∧
    bytes_inflight st = 0 ∧
    outbound_list_intact st = false ∧
    inflight_list_intact st = false ∧
    received_list_intact st = false.
Proof.
  intros r. destruct (ctcp_init_new_state c cfg w) as (a & st & H).
  fold r in H. destruct_and!. by exists a, st.
Qed.

(** C8.  For the [NULL] connection handle, [ctcp_init] returns [NULL] and
    leaves the process, its heap and its list of active states as they
    were. *)
Theorem ctcp_init_null cfg w :
  ctcp_init None cfg w = (None, w) ∧
  heap (ctcp_init None cfg w).2 = heap w ∧
  state_list (ctcp_init None cfg w).2 = state_list w.
Proof. done. Qed.

(** C9.  Whatever the other registered connections are, [ctcp_destroy] of
    an allocated state releases its connection object, frees the state and
    then calls [end_client], in this order and as its last action; the
    connections registered around it stay registered. *)
Theorem ctcp_destroy_ends_client state st w :
  heap w !! state = Some st →
  ∃ w',
    ctcp_destroy state w = Some w' ∧
    trace w' = trace w ++
      [ev_conn_remove (conn st); ev_free state; ev_end_client] ∧
    last (trace w') = Some ev_end_client ∧
    heap w' !! state = None ∧
    (∀ l1 l2, registry w (l1 ++ state :: l2) → registry w' (l1 ++ l2)).
Proof.
  intros Hst.
  assert (∃ w', ctcp_destroy state w = Some w' ∧
     trace w' = trace w ++
       [ev_conn_remove (conn st); ev_free state; ev_end_client] ∧
     heap w' !! state = None) as (w' & Hd & Htr & Hgone).
  { unfold ctcp_destroy. rewrite Hst.
    destruct (store_through _ _ _ _) as [h2 sl2].
    eexists. split; [reflexivity|]. simpl.
    split; [done | by rewrite lookup_delete_eq]. }
  exists w'. split; [done|]. split; [done|].
  split. { rewrite Htr. by rewrite last_app. }
  split; [done|].
  intros l1 l2 Hreg.
  destruct (ctcp_destroy_registry _ _ _ _ Hreg) as (w2 & Hd2 & Hreg2 & _).
  by simplify_eq.
Qed.

(** ** The output thread and the invariants of the transition system *)

Section SystemProofs.

Context `{P : Platform}.

(** What the body of the output thread does to the state, case by case. *)
Lemma send_outbound_tail_segments_cases state :
  let window_open :=
    to_short (send_window (config state)) >? bytes_inflight state in
  send_outbound_tail_segments state =
    match window_open, outbound_segments_list state with
    | true, [] => ThreadExit state
    | true, [_] => NullDeref
    | true, _ :: _ :: _ =>
        Returned (set_outbound_segments_list
                    (removelast (outbound_segments_list state)) state)
    | false, [] => NullDeref
    | false, _ :: _ => Returned state
    end.
Proof.
  unfold send_outbound_tail_segments.
  destruct (to_short (send_window (config state)) >? bytes_inflight state);
    destruct (outbound_segments_list state) as [|x [|y l]] eqn:E; simpl;
    rewrite ?E; try reflexivity.
  all: repeat match goal with
              | |- context [match last ?l with _ => _ end] =>
                  destruct (last l) eqn:?
              | |- context [if ?c then _ else _] => destruct c
              end; try reflexivity.
  all: match goal with H : last _ = None |- _ => by apply last_None in H end.
Qed.

Lemma send_outbound_tail_segments_frame state state' :
  send_outbound_tail_segments state = Returned state' ∨
  send_outbound_tail_segments state = ThreadExit state' →
  same_outside_sending state state' ∧
  next_seq_no state' = next_seq_no state ∧
  is_output_thread_running state' = is_output_thread_running state ∧
  Forall (λ ts, ts ∈ outbound_segments_list state)
    (outbound_segments_list state').
Proof.
  rewrite send_outbound_tail_segments_cases.
  destruct (_ >? _); destruct (outbound_segments_list state)
    as [|x [|y l]] eqn:E; intros [H|H]; try discriminate;
    inversion H; subst; rewrite ?E;
    (split; [repeat split|]); (split; [done|]); (split; [done|]);
    try (apply Forall_forall; by intros).
  simpl. apply Forall_forall. intros ts Hts.
  change (ts ∈ removelast (x :: y :: l)) in Hts.
  rewrite removelast_firstn_len in Hts. by eapply subseteq_take.
Qed.

Lemma ctcp_read_frame self state inputs creates state' evs :
  ctcp_read self state inputs creates = (state', evs) →
  same_outside_sending state state'.
Proof.
  destruct (ctcp_read_unfold self state inputs creates)
    as (s1 & br & evs1 & news & _ & Hr & _ & Hs & _).
  rewrite Hr. intros [= <- <-].
  eapply same_outside_sending_trans; [exact Hs|].
  unfold ctcp_read_eof. destruct (br =? -1); repeat split.
Qed.

(** A state that exists before and after a step keeps its inflight list
    and its count of bytes in flight. *)
Lemma step_keeps_inflight w w' a st st' :
  step w w' → heap w !! a = Some st → heap w' !! a = Some st' →
  inflight_segments_list st' = inflight_segments_list st ∧
  bytes_inflight st' = bytes_inflight st.
Proof.
  intros Hstep Ha Ha'. destruct Hstep as
    [conn cfg w0 | state w0 w1 Hd
    | state st0 inputs creates w0 st1 evs Hs Hr
    | state st0 st1 w0 Hin Hs Hr
    | state st0 st1 w0 Hin Hs Hr
    | state st0 segment len w0 Hs
    | state st0 w0 Hs
    | w0]; simpl in Ha'.
  - destruct conn as [c|]; simpl in Ha'; [|by simplify_eq].
    apply ctcp_init_lookup in Ha' as [(st2 & H2 & Hsame)|(Hnone & _)];
      [|congruence].
    unfold same_protocol_state in Hsame. destruct_and!.
    by simplify_eq.
  - eapply ctcp_destroy_lookup in Ha' as (_ & st2 & H2 & Hsame); [|done].
    unfold same_protocol_state in Hsame. destruct_and!.
    by simplify_eq.
  - rewrite lookup_insert in Ha'. case_decide; simplify_eq; [|done].
    apply ctcp_read_frame in Hr. unfold same_outside_sending in Hr.
    by destruct_and!.
  - rewrite lookup_insert in Ha'. case_decide; simplify_eq; [|done].
    destruct (send_outbound_tail_segments_frame _ _ (or_introl Hr))
      as (Hf & _). unfold same_outside_sending in Hf. by destruct_and!.
  - rewrite lookup_insert in Ha'. case_decide; simplify_eq; [|done].
    destruct (send_outbound_tail_segments_frame _ _ (or_intror Hr))
      as (Hf & _). unfold same_outside_sending in Hf. by destruct_and!.
  - rewrite lookup_insert in Ha'. case_decide; by simplify_eq.
  - rewrite lookup_insert in Ha'. case_decide; by simplify_eq.
  - unfold ctcp_timer in Ha'. by simplify_eq.
Qed.

(** A state that a step brings into existence has an empty inflight list
    and no bytes in flight. *)
Lemma step_new_inflight w w' a st' :
  step w w' → heap w !! a = None → heap w' !! a = Some st' →
  inflight_segments_list st' = [] ∧ bytes_inflight st' = 0.
Proof.
  intros Hstep Ha Ha'. destruct Hstep as
    [conn cfg w0 | state w0 w1 Hd
    | state st0 inputs creates w0 st1 evs Hs Hr
    | state st0 st1 w0 Hin Hs Hr
    | state st0 st1 w0 Hin Hs Hr
    | state st0 segment len w0 Hs
    | state st0 w0 Hs
    | w0]; simpl in Ha'.
  - destruct conn as [c|]; simpl in Ha'; [|congruence].
    apply ctcp_init_lookup in Ha' as [(st2 & H2 & Hsame)|(_ & _ & Hnew)];
      [congruence|]. by destruct_and!.
  - eapply ctcp_destroy_lookup in Ha' as (_ & st2 & H2 & Hsame); [|done].
    congruence.
  - rewrite lookup_insert in Ha'. case_decide; simplify_eq.
  - rewrite lookup_insert in Ha'. case_decide; simplify_eq.
  - rewrite lookup_insert in Ha'. case_decide; simplify_eq.
  - rewrite lookup_insert in Ha'. case_decide; simplify_eq.
  - rewrite lookup_insert in Ha'. case_decide; simplify_eq.
  - unfold ctcp_timer in Ha'. congruence.
Qed.

Lemma ctcp_read_at_step state inputs creates w w' :
  ctcp_read_at state inputs creates w = Some w' → step w w'.
Proof.
  unfold ctcp_read_at. destruct (heap w !! state) as [st|] eqn:Hst; [|done].
  destruct (ctcp_read state st inputs creates) as [st' evs] eqn:Hr.
  intros [= <-]. by eapply step_read.
Qed.

Lemma output_thread_at_step state w w' :
  output_thread_at state w = Some w' → step w w'.
Proof.
  unfold output_thread_at. case_decide as Hin; [|done].
  destruct (heap w !! state) as [st|] eqn:Hst; [|done].
  destruct (send_outbound_tail_segments st) as [st'|st'|] eqn:Hs;
    intros [= <-].
  - by eapply step_thread_returned.
  - by eapply step_thread_exit.
Qed.

(** No function of the file puts a segment on an inflight list or assigns
    [bytes_inflight] after [ctcp_init]: in every reachable state the
    inflight list made by [ll_create] is as it was made and the count is
    zero. *)
Lemma reachable_inflight_empty w :
  reachable w →
  ∀ a st, heap w !! a = Some st →
          inflight_segments_list st = [] ∧ bytes_inflight st = 0.
Proof.
  intros Hreach.
  eapply (rtc_ind_r (λ w, ∀ a st, heap w !! a = Some st →
            inflight_segments_list st = [] ∧ bytes_inflight st = 0));
    [| |exact Hreach].
  - intros a st Ha. simpl in Ha. by rewrite lookup_empty in Ha.
  - intros w1 w2 _ Hs IH a st' Ha'.
    destruct (heap w1 !! a) as [st|] eqn:Ha.
    + destruct (step_keeps_inflight _ _ _ _ _ Hs Ha Ha') as [-> ->]. eauto.
    + by eapply step_new_inflight.
Qed.

Lemma receive_all_id state arrivals : receive_all state arrivals = state.
Proof.
  unfold receive_all. revert state.
  induction arrivals as [|x l IH]; intros state; [done|]. simpl. apply IH.
Qed.

(** C5.  Over any sequence of segment arrivals handed to [ctcp_receive],
    whatever they contain, [last_ack_received] and [last_ack_sent] do not
    decrease; and a pure ACK whose [ackno] is at most [last_ack_received]
    leaves the connection state unchanged. *)
Theorem ctcp_receive_monotone state arrivals :
  let state' := receive_all state arrivals in
  last_ack_received state ≤ last_ack_received state' ∧
  last_ack_sent state ≤ last_ack_sent state' ∧
  ∀ segment len,
    data segment = [] → has_flag ACK segment →
    ntohl (ackno segment) ≤ last_ack_received state →
    ctcp_receive state segment len = state.
Proof.
  intros state'. unfold state'. rewrite receive_all_id.
  split; [lia|]. split; [lia|]. done.
Qed.

End SystemProofs.

(** ** [array_copy], the data path of [ctcp_read] and its thread *)

Section ReadProofs.

Context `{P : Platform}.

Lemma array_copy_loop_general (k i : nat) (to from : list byte) :
  (i + k ≤ length to)%nat → (i + k ≤ length from)%nat →
  array_copy_loop k i to from
    = take i to ++ take k (drop i from) ++ drop (i + k) to.
Proof.
  revert i to. induction k as [|k IH]; intros i to Hto Hfrom; simpl.
  - by rewrite Nat.add_0_r, take_drop.
  - destruct (lookup_lt_is_Some_2 from i) as [b Hb]; [lia|].
    rewrite Hb, IH by (rewrite ?length_insert; lia).
    rewrite (take_S_r _ i b) by (apply list_lookup_insert_eq; lia).
    rewrite take_insert_ge by lia.
    rewrite drop_insert_lt by lia.
    rewrite (drop_S from b i Hb). simpl.
    rewrite <- app_assoc. simpl. by rewrite Nat.add_succ_r.
Qed.

Lemma array_copy_loop_length (k i : nat) (to from : list byte) :
  length (array_copy_loop k i to from) = length to.
Proof.
  revert i to. induction k as [|k IH]; intros i to; simpl; [done|].
  rewrite IH. destruct (from !! i); [apply length_insert | done].
Qed.

(** X1.  [array_copy (to, from, n)] never changes the length of [to]; for
    [n <= 0] it leaves [to] as it is; and when both arrays hold at least
    [n] bytes it overwrites the first [n] bytes of [to] with the first [n]
    bytes of [from] and keeps the rest of [to]. *)
Theorem array_copy_spec (to from : list byte) (n : Z) :
  length (array_copy to from n) = length to ∧
  (n ≤ 0 → array_copy to from n = to) ∧
  (n ≤ Z.of_nat (length from) → n ≤ Z.of_nat (length to) →
   array_copy to from n
     = take (Z.to_nat n) from ++ drop (Z.to_nat n) to).
Proof.
  split; [apply array_copy_loop_length|]. split.
  - intros Hn. unfold array_copy. by replace (Z.to_nat n) with 0%nat by lia.
  - intros Hfrom Hto. unfold array_copy.
    rewrite array_copy_loop_general by lia. by rewrite take_0, drop_0.
Qed.

Lemma to_u32_add_congr a b c :
  to_u32 a = to_u32 b → to_u32 (a + c) = to_u32 (b + c).
Proof.
  unfold to_u32. intros E.
  rewrite (Z.add_mod a), (Z.add_mod b), E by lia. done.
Qed.

Lemma sequence_starts_congr a b reads :
  to_u32 a = to_u32 b →
  map to_u32 (sequence_starts a reads) = map to_u32 (sequence_starts b reads).
Proof.
  revert a b. induction reads as [|r reads IH]; intros a b E; simpl; [done|].
  rewrite E. f_equal. by apply IH, to_u32_add_congr.
Qed.

(** The loop of [ctcp_read], read by read: [news] are the segments it
    builds, oldest first. *)
Lemma ctcp_read_loop_segments self inputs :
  ∀ state need creates s1 br evs,
    ctcp_read_loop self state need inputs creates = (s1, br, evs) →
    ∃ news,
      outbound_segments_list s1 = rev news ++ outbound_segments_list state ∧
      br = terminating_read inputs ∧
      map (λ ts, data (segment ts)) news
        = map (λ r, array_copy (malloc r.1) r.2 r.1)
            (positive_reads inputs) ∧
      map (λ ts, ntohl (seqno (segment ts))) news
        = map to_u32
            (sequence_starts (next_seq_no state) (positive_reads inputs)) ∧
      to_u32 (next_seq_no s1)
        = to_u32 (next_seq_no state + total_bytes (positive_reads inputs)).
Proof.
  induction inputs as [|[bytes_read buffer] inputs IH];
    intros state need creates s1 br evs Hloop; simpl in Hloop.
  - inversion Hloop; subst. exists []. simpl.
    repeat split; try done. by rewrite Z.add_0_r.
  - simpl. destruct (Z.gtb_spec bytes_read 0) as [Hpos|Hnpos].
    2:{ inversion Hloop; subst. exists []. simpl.
        repeat split; try done. by rewrite Z.add_0_r. }
    set (ts := calloc_timestamped
                 (create_new_data_segment state bytes_read buffer).1).
    set (seq1 := to_int (next_seq_no state + bytes_read)) in *.
    assert (Hgen : ∀ st2 need2 creates2 s1' br' evs',
      next_seq_no st2 = seq1 →
      outbound_segments_list st2 = ts :: outbound_segments_list state →
      ctcp_read_loop self st2 need2 inputs creates2 = (s1', br', evs') →
      ∃ news,
        outbound_segments_list s1'
          = rev news ++ outbound_segments_list state ∧
        br' = terminating_read inputs ∧
        map (λ ts, data (segment ts)) news
          = array_copy (malloc bytes_read) buffer bytes_read
            :: map (λ r, array_copy (malloc r.1) r.2 r.1)
                 (positive_reads inputs) ∧
        map (λ ts, ntohl (seqno (segment ts))) news
          = to_u32 (next_seq_no state)
            :: map to_u32
                 (sequence_starts (next_seq_no state + bytes_read)
                    (positive_reads inputs)) ∧
        to_u32 (next_seq_no s1')
          = to_u32 (next_seq_no state
                    + (bytes_read + total_bytes (positive_reads inputs)))).
    { intros st2 need2 creates2 s1' br' evs' Hseq Hout Hl.
      destruct (IH _ _ _ _ _ _ Hl)
        as (news & Hn & Hbr & Hdata & Hseqs & Htot).
      exists (ts :: news). simpl.
      split. { by rewrite Hn, Hout, <- app_assoc. }
      split; [done|].
      split. { by rewrite Hdata. }
      split.
      { rewrite Hseqs, Hseq. f_equal; [apply ntohl_htonl|].
        apply sequence_starts_congr, to_u32_to_int. }
      rewrite Htot, Hseq, Z.add_assoc.
      apply to_u32_add_congr, to_u32_to_int. }
    destruct (need =? 0).
    { eapply Hgen; [| |exact Hloop]; reflexivity. }
    destruct (is_output_thread_running _ =? 0).
    2:{ eapply Hgen; [| |exact Hloop]; reflexivity. }
    destruct (ctcp_read_loop self _ _ inputs (tl creates))
      as [[s1' br'] evs'] eqn:Hl.
    inversion Hloop; subst.
    eapply Hgen; [| |exact Hl];
      destruct (to_short (hd 0 creates) =? 0); reflexivity.
Qed.

(** The whole of [ctcp_read]: the outbound list gains the segments of the
    loop and, in front of them, the FIN of the branch after the loop. *)
Lemma ctcp_read_segments self state inputs creates :
  ∃ s1 evs news,
    ctcp_read self state inputs creates
      = (ctcp_read_eof s1 (terminating_read inputs), evs) ∧
    outbound_segments_list s1 = rev news ++ outbound_segments_list state ∧
    map (λ ts, data (segment ts)) news
      = map (λ r, array_copy (malloc r.1) r.2 r.1)
          (positive_reads inputs) ∧
    map (λ ts, ntohl (seqno (segment ts))) news
      = map to_u32
          (sequence_starts (next_seq_no state) (positive_reads inputs)) ∧
    to_u32 (next_seq_no s1)
      = to_u32 (next_seq_no state + total_bytes (positive_reads inputs)).
Proof.
  unfold ctcp_read.
  destruct (ctcp_read_loop self state 1 inputs creates)
    as [[s1 br] evs] eqn:Hl.
  destruct (ctcp_read_loop_segments _ _ _ _ _ _ _ _ Hl)
    as (news & Hn & -> & Hrest).
  by exists s1, evs, news.
Qed.

(** X2.  When every read delivers as many bytes as it reports, [ctcp_read]
    queues exactly one data segment per read, in front of the segments
    that were queued before (none of which is dropped or moved), the
    newest at the head; listed oldest first, the payloads of the new
    segments are the chunks that were read, in the order they were read.
    A FIN, with no payload, is put in front of them exactly when the
    loop ended on -1. *)
Theorem ctcp_read_queues_input self state inputs creates :
  Forall (λ r, r.1 ≤ Z.of_nat (length r.2)) (positive_reads inputs) →
  ∃ fin_part news,
    outbound_segments_list (ctcp_read self state inputs creates).1
      = fin_part ++ rev news ++ outbound_segments_list state ∧
    length news = length (positive_reads inputs) ∧
    map (λ ts, data (segment ts)) news
      = map read_bytes (positive_reads inputs) ∧
    length fin_part
      = (if terminating_read inputs =? -1 then 1%nat else 0%nat) ∧
    Forall (λ ts, data (segment ts) = [] ∧ has_flag FIN (segment ts))
      fin_part.
Proof.
  intros Hfull.
  destruct (ctcp_read_segments self state inputs creates)
    as (s1 & evs & news & -> & Hn & Hdata & _).
  assert (Hd : map (λ ts, data (segment ts)) news
               = map read_bytes (positive_reads inputs)).
  { rewrite Hdata. apply map_ext_in. intros r Hr.
    rewrite Forall_forall in Hfull.
    apply array_copy_malloc. apply list_elem_of_In, Hfull in Hr. lia. }
  assert (Hlen : length news = length (positive_reads inputs)).
  { by rewrite <- (length_map (λ ts, data (segment ts)) news), Hd,
      length_map. }
  simpl. unfold ctcp_read_eof.
  destruct (terminating_read inputs =? -1).
  - exists [calloc_timestamped (create_new_fin_segment s1)], news.
    simpl. rewrite Hn. repeat split; try done.
    constructor; [|done]. split; [done|].
    eapply has_flag_lor_r. apply create_new_fin_segment_fields.
  - exists [], news. simpl. rewrite Hn. by repeat split.
Qed.

(** X3.  The data segments [ctcp_read] queues carry consecutive sequence
    numbers: the first starts at the [next_seq_no] the call found, each
    next one where the payload before it ends; [next_seq_no] ends up
    advanced by the total number of bytes read; and the FIN queued at end
    of input carries the sequence number just after the last byte (all
    modulo [2 ^ 32]). *)
Theorem ctcp_read_sequence_numbers self state inputs creates :
  let reads := positive_reads inputs in
  let r := ctcp_read self state inputs creates in
  ∃ fin_part news,
    outbound_segments_list r.1
      = fin_part ++ rev news ++ outbound_segments_list state ∧
    map (λ ts, ntohl (seqno (segment ts))) news
      = map to_u32 (sequence_starts (next_seq_no state) reads) ∧
    to_u32 (next_seq_no r.1)
      = to_u32 (next_seq_no state + total_bytes reads) ∧
    Forall (λ ts, ntohl (seqno (segment ts))
                  = to_u32 (next_seq_no state + total_bytes reads))
      fin_part.
Proof.
  intros reads r. unfold r, reads.
  destruct (ctcp_read_segments self state inputs creates)
    as (s1 & evs & news & -> & Hn & _ & Hseq & Htot).
  simpl. unfold ctcp_read_eof.
  destruct (terminating_read inputs =? -1).
  - exists [calloc_timestamped (create_new_fin_segment s1)], news.
    simpl. rewrite Hn. repeat split; try done.
    constructor; [|done]. simpl. by rewrite ntohl_htonl.
  - exists [], news. simpl. rewrite Hn. by repeat split.
Qed.

(** The thread side of the loop of [ctcp_read]. *)
Lemma ctcp_read_loop_threads self inputs :
  ∀ state need creates s1 br evs,
    ctcp_read_loop self state need inputs creates = (s1, br, evs) →
    (need = 0 ∨ is_output_thread_running state ≠ 0 →
       evs = [] ∧
       is_output_thread_running s1 = is_output_thread_running state) ∧
    (positive_reads inputs = [] → evs = []) ∧
    (length (started_threads evs) ≤ 1)%nat ∧
    (started_threads evs ≠ [] → is_output_thread_running s1 = 1).
Proof.
  induction inputs as [|[bytes_read buffer] inputs IH];
    intros state need creates s1 br evs Hloop; simpl in Hloop.
  - inversion Hloop; subst. simpl. repeat split; try done; lia.
  - simpl. destruct (Z.gtb_spec bytes_read 0) as [Hpos|Hnpos].
    2:{ inversion Hloop; subst. simpl. repeat split; try done; lia. }
    destruct (Z.eqb_spec need 0) as [Hneed|Hneed].
    { destruct (IH _ _ _ _ _ _ Hloop) as (H1 & _ & H3 & H4).
      destruct H1 as [-> H1]; [by left|]. simpl in H1.
      repeat split; try done; simpl; lia. }
    destruct (Z.eqb_spec (is_output_thread_running state) 0) as [Hrun|Hrun].
    2:{ destruct (IH _ _ _ _ _ _ Hloop) as (H1 & _ & H3 & H4).
        destruct H1 as [-> H1]; [by left|]. simpl in H1.
        repeat split; try done; simpl; lia. }
    destruct (ctcp_read_loop self _ _ inputs (tl creates))
      as [[s1' br'] evs'] eqn:Hl.
    inversion Hloop; subst.
    destruct (IH _ _ _ _ _ _ Hl) as (H1 & _ & H3 & H4).
    split. { intros [?|?]; done. }
    split; [done|].
    destruct (Z.eqb_spec (to_short (hd 0 creates)) 0) as [Hrc|Hrc].
    + destruct H1 as [-> H1]; [by left|]. simpl in H1.
      split. { simpl. destruct (hd 0 creates =? 0); simpl; lia. }
      done.
    + assert (Hne : (hd 0 creates =? 0) = false).
      { apply Z.eqb_neq. intros E. by rewrite E in Hrc. }
      simpl. rewrite Hne. done.
Qed.

(** X4.  One call of [ctcp_read] starts at most one output thread, and
    none when [is_output_thread_running] is already set (it then calls
    [pthread_create] not at all and leaves the flag alone) or when it
    reads no data; whenever it does start a thread it leaves
    [is_output_thread_running] at 1. *)
Theorem ctcp_read_thread_creation self state inputs creates :
  let r := ctcp_read self state inputs creates in
  (length (started_threads r.2) ≤ 1)%nat ∧
  (is_output_thread_running state ≠ 0 →
     r.2 = [] ∧
     is_output_thread_running r.1 = is_output_thread_running state) ∧
  (positive_reads inputs = [] → r.2 = []) ∧
  (started_threads r.2 ≠ [] → is_output_thread_running r.1 = 1).
Proof.
  intros r. unfold r, ctcp_read.
  destruct (ctcp_read_loop self state 1 inputs creates)
    as [[s1 br] evs] eqn:Hl.
  destruct (ctcp_read_loop_threads _ _ _ _ _ _ _ _ Hl)
    as (H1 & H2 & H3 & H4).
  assert (Heof : is_output_thread_running (ctcp_read_eof s1 br)
                 = is_output_thread_running s1).
  { unfold ctcp_read_eof. by destruct (br =? -1). }
  simpl. rewrite Heof. split; [done|]. split; [|by split].
  intros Hrun. apply H1. by right.
Qed.

End ReadProofs.

(** ** More on the registry *)

Lemma ctcp_init_keeps c cfg w b st :
  heap w !! b = Some st →
  ∃ st', heap (ctcp_init (Some c) cfg w).2 !! b = Some st' ∧
         same_protocol_state st st'.
Proof.
  intros Hb. simpl.
  assert (Hne : fresh (dom (heap w)) ≠ b).
  { intros <-. pose proof (is_fresh (dom (heap w))) as Hf.
    apply not_elem_of_dom in Hf. congruence. }
  destruct (state_list w) as [old|].
  - rewrite lookup_alter. case_decide as Hold.
    + subst old. rewrite lookup_insert_ne, Hb by done. simpl.
      eexists. split; [done|]. repeat split.
    + rewrite lookup_insert_ne, Hb by done.
      eauto using same_protocol_state_refl.
  - rewrite lookup_insert_ne, Hb by done.
    eauto using same_protocol_state_refl.
Qed.

Lemma alter_links_keeps (f : ctcp_state → ctcp_state)
    (h : gmap addr ctcp_state) a b st :
  (∀ s, same_protocol_state s (f s)) →
  h !! b = Some st →
  ∃ st', alter f a h !! b = Some st' ∧ same_protocol_state st st'.
Proof.
  intros Hf Hb. rewrite lookup_alter. case_decide as Hab.
  - subst. rewrite Hb. simpl. eauto.
  - eauto using same_protocol_state_refl.
Qed.

Lemma ctcp_destroy_keeps a w w' b st :
  ctcp_destroy a w = Some w' → b ≠ a → heap w !! b = Some st →
  ∃ st', heap w' !! b = Some st' ∧ same_protocol_state st st'.
Proof.
  unfold ctcp_destroy. destruct (heap w !! a) as [sta|] eqn:Ha; [|done].
  intros Hd Hne Hb.
  assert (∃ st1, (match next sta with
                  | Some n => alter (set_prev (prev sta)) n (heap w)
                  | None => heap w
                  end) !! b = Some st1 ∧ same_protocol_state st st1)
    as (st1 & Hb1 & Hs1).
  { destruct (next sta).
    - apply alter_links_keeps; [|done]. intros s. repeat split.
    - eauto using same_protocol_state_refl. }
  assert (∃ st2, (store_through (prev sta) (next sta)
                    (match next sta with
                     | Some n => alter (set_prev (prev sta)) n (heap w)
                     | None => heap w
                     end) (state_list w)).1 !! b = Some st2 ∧
                 same_protocol_state st1 st2) as (st2 & Hb2 & Hs2).
  { destruct (prev sta); simpl.
    - eauto using same_protocol_state_refl.
    - apply alter_links_keeps; [|done]. intros s. repeat split. }
  destruct (store_through _ _ _ _) as [h2 sl2]. injection Hd as <-.
  simpl in *. exists st2. rewrite lookup_delete_ne by done.
  eauto using same_protocol_state_trans.
Qed.

(** X8.  Creating or destroying a connection leaves every other allocated
    connection allocated and changes nothing of it but its list links: its
    handle, configuration, counters, thread flag and three lists stay as
    they are. *)
Theorem other_connections_untouched b st w :
  heap w !! b = Some st →
  (∀ c cfg, ∃ st', heap (ctcp_init (Some c) cfg w).2 !! b = Some st' ∧
                   same_protocol_state st st') ∧
  (∀ a w', ctcp_destroy a w = Some w' → b ≠ a →
           ∃ st', heap w' !! b = Some st' ∧ same_protocol_state st st').
Proof.
  intros Hb. split.
  - intros c cfg. by apply ctcp_init_keeps.
  - intros a w' Hd Hne. by eapply ctcp_destroy_keeps.
Qed.

(** X6.  Destroying the connection that [ctcp_init] has just created puts
    the heap of states and the list of active states back exactly as they
    were (the [prev] link of the former head included); what remains of
    the pair of calls is the trace of [conn_remove], [free] and
    [end_client]. *)
Theorem ctcp_init_destroy_round_trip c cfg w l :
  registry w l →
  let r := ctcp_init (Some c) cfg w in
  ∃ a, r.1 = Some a ∧
       ctcp_destroy a r.2
         = Some (mk_world (heap w) (state_list w) (threads w)
                   (trace w ++ [ev_conn_remove c; ev_free a;
                                ev_end_client])).
Proof.
  intros [Hd _] r. exists (fresh (dom (heap w))). split; [done|].
  set (a := fresh (dom (heap w))).
  assert (Hfresh : heap w !! a = None) by apply not_elem_of_dom, is_fresh.
  unfold r, ctcp_destroy. simpl. fold a.
  set (st0 := ctcp_init_state _ _ _).
  destruct l as [|old l]; simpl in Hd.
  - rewrite Hd. rewrite lookup_insert_eq. simpl. rewrite Hd. simpl.
    by rewrite delete_insert_id.
  - destruct Hd as (Hsl & sto & Hold & Hprev & _). rewrite Hsl.
    assert (Hne : old ≠ a) by congruence.
    rewrite lookup_alter_ne, lookup_insert_eq by done. simpl.
    rewrite Hsl. simpl. do 2 f_equal.
    apply map_eq. intros k.
    destruct (decide (k = a)) as [->|Hka].
    { by rewrite lookup_delete_eq. }
    rewrite lookup_delete_ne by done.
    destruct (decide (k = old)) as [->|Hko].
    + rewrite !lookup_alter_eq, lookup_insert_ne, Hold by done. simpl.
      f_equal. destruct sto. simpl in Hprev. by subst.
    + by rewrite !lookup_alter_ne, lookup_insert_ne.
Qed.

(** A list segment only depends on the links of the states it visits. *)
Lemma dseg_same_links h h' pp p l :
  (∀ a st, a ∈ l → h !! a = Some st →
           ∃ st', h' !! a = Some st' ∧ next st' = next st ∧
                  prev st' = prev st) →
  dseg h pp p l → dseg h' pp p l.
Proof.
  revert pp p. induction l as [|b l IH]; intros pp p Hsame Hd; [done|].
  destruct Hd as (Hp & st & Hb & Hprev & Hd).
  destruct (Hsame b st) as (st' & Hb' & Hn & Hpv); [by left | done |].
  split; [done|]. exists st'. split; [done|]. split; [congruence|].
  rewrite Hn. apply IH; [|done]. intros a sta Ha. apply Hsame. by right.
Qed.

Lemma registry_exact_update w a st st' ths tr :
  heap w !! a = Some st → next st' = next st → prev st' = prev st →
  registry_exact w →
  registry_exact (mk_world (<[a := st']> (heap w)) (state_list w) ths tr).
Proof.
  intros Ha Hn Hp (l & [Hd Hnd] & Hex). exists l. split; [split|].
  - simpl. eapply dseg_same_links; [|exact Hd]. intros b stb _ Hb.
    destruct (decide (a = b)) as [->|Hne].
    + rewrite lookup_insert_eq. exists st'.
      assert (stb = st) as -> by congruence. done.
    + rewrite lookup_insert_ne by done. eauto.
  - done.
  - intros b. simpl. rewrite Hex, lookup_insert_is_Some'.
    split; [by right|]. intros [<-|?]; [by eexists | done].
Qed.

Lemma ctcp_init_registry_exact c cfg w :
  registry_exact w → registry_exact (ctcp_init (Some c) cfg w).2.
Proof.
  intros (l & Hreg & Hex). exists (fresh (dom (heap w)) :: l).
  split; [by apply ctcp_init_registry|].
  intros b. rewrite elem_of_cons, Hex. simpl.
  destruct (state_list w) as [old|].
  - rewrite lookup_alter_is_Some, lookup_insert_is_Some'.
    split; (intros [?|?]; [by left | by right]).
  - rewrite lookup_insert_is_Some'.
    split; (intros [?|?]; [by left | by right]).
Qed.

Lemma ctcp_destroy_allocated a w w' b :
  ctcp_destroy a w = Some w' →
  is_Some (heap w' !! b) ↔ b ≠ a ∧ is_Some (heap w !! b).
Proof.
  unfold ctcp_destroy. destruct (heap w !! a) as [sta|] eqn:Ha; [|done].
  assert (Hst : ∀ h, is_Some ((store_through (prev sta) (next sta) h
                                 (state_list w)).1 !! b)
                     ↔ is_Some (h !! b)).
  { intros h. destruct (prev sta); simpl; [done|].
    apply lookup_alter_is_Some. }
  specialize (Hst (match next sta with
                   | Some n => alter (set_prev (prev sta)) n (heap w)
                   | None => heap w
                   end)).
  destruct (store_through _ _ _ _) as [h2 sl2]. intros [= <-]. simpl in *.
  rewrite lookup_delete_is_Some, Hst.
  destruct (next sta); [rewrite lookup_alter_is_Some|];
    (split; (intros [? ?]; (split; [congruence | done]))).
Qed.

Lemma ctcp_destroy_registry_exact a w w' :
  ctcp_destroy a w = Some w' → registry_exact w → registry_exact w'.
Proof.
  intros Hd (l & Hreg & Hex).
  assert (Ha : a ∈ l).
  { apply Hex. unfold ctcp_destroy in Hd.
    destruct (heap w !! a); [by eexists | done]. }
  apply list_elem_of_split in Ha as (l1 & l2 & ->).
  destruct (ctcp_destroy_registry _ _ _ _ Hreg) as (w2 & Hd2 & Hreg2 & _).
  assert (w2 = w') as -> by congruence.
  exists (l1 ++ l2). split; [done|]. intros b.
  rewrite (ctcp_destroy_allocated _ _ _ _ Hd), <- Hex.
  destruct Hreg as [_ Hnd]. apply NoDup_app in Hnd as (_ & H12 & H2).
  apply NoDup_cons in H2 as [Ha2 _].
  rewrite !elem_of_app, elem_of_cons. split.
  - intros [H1|H2']; split.
    + intros ->. eapply H12; [done | by left].
    + by left.
    + by intros ->.
    + right. by right.
  - intros [Hne [H1|[->|H2']]]; [by left | done | by right].
Qed.

(** ** The process, step by step *)

Section ProcessProofs.

Context `{P : Platform}.

(** Where a state found after a step comes from: it is new, or it is an
    old state with other links at most, or the result of [ctcp_read] or of
    the output thread on the old state. *)
Lemma step_cases w w' a st' :
  step w w' → heap w' !! a = Some st' →
  (heap w !! a = None ∧ outbound_segments_list st' = [] ∧
   is_output_thread_running st' = 0) ∨
  ∃ st, heap w !! a = Some st ∧
    (same_protocol_state st st' ∨
     (∃ inputs creates, (ctcp_read a st inputs creates).1 = st') ∨
     send_outbound_tail_segments st = Returned st' ∨
     send_outbound_tail_segments st = ThreadExit st').
Proof.
  intros Hstep Ha'. destruct Hstep as
    [conn cfg w0 | state w0 w1 Hd
    | state st0 inputs creates w0 st1 evs Hs Hr
    | state st0 st1 w0 Hin Hs Hr
    | state st0 st1 w0 Hin Hs Hr
    | state st0 segment len w0 Hs
    | state st0 w0 Hs
    | w0]; simpl in Ha'.
  - destruct conn as [c|]; simpl in Ha'.
    + apply ctcp_init_lookup in Ha' as [(st & Hst & Hsame)|(Hnone & _ & Hnew)].
      * right. eauto.
      * left. by destruct_and!.
    + right. eauto using same_protocol_state_refl.
  - eapply ctcp_destroy_lookup in Ha' as (_ & st & Hst & Hsame); [|done].
    right. eauto.
  - right. rewrite lookup_insert in Ha'. case_decide as Hs'.
    + subst a. injection Ha' as <-. exists st0. split; [done|].
      right. left. exists inputs, creates. by rewrite Hr.
    + eauto using same_protocol_state_refl.
  - right. rewrite lookup_insert in Ha'. case_decide as Hs'.
    + subst a. injection Ha' as <-. eauto 6.
    + eauto using same_protocol_state_refl.
  - right. rewrite lookup_insert in Ha'. case_decide as Hs'.
    + subst a. injection Ha' as <-. eauto 6.
    + eauto using same_protocol_state_refl.
  - right. rewrite lookup_insert in Ha'. case_decide as Hs'.
    + subst a. injection Ha' as <-. eauto using same_protocol_state_refl.
    + eauto using same_protocol_state_refl.
  - right. rewrite lookup_insert in Ha'. case_decide as Hs'.
    + subst a. injection Ha' as <-. eauto using same_protocol_state_refl.
    + eauto using same_protocol_state_refl.
  - right. eauto using same_protocol_state_refl.
Qed.

Lemma step_preserves_registry_exact w w' :
  step w w' → registry_exact w → registry_exact w'.
Proof.
  intros Hstep Hreg. destruct Hstep as
    [conn cfg w0 | state w0 w1 Hd
    | state st0 inputs creates w0 st1 evs Hs Hr
    | state st0 st1 w0 Hin Hs Hr
    | state st0 st1 w0 Hin Hs Hr
    | state st0 segment len w0 Hs
    | state st0 w0 Hs
    | w0].
  - destruct conn as [c|]; [by apply ctcp_init_registry_exact | done].
  - by eapply ctcp_destroy_registry_exact.
  - apply ctcp_read_frame in Hr. unfold same_outside_sending in Hr.
    destruct_and!. by eapply registry_exact_update.
  - destruct (send_outbound_tail_segments_frame _ _ (or_introl Hr))
      as (Hf & _). unfold same_outside_sending in Hf.
    destruct_and!. by eapply registry_exact_update.
  - destruct (send_outbound_tail_segments_frame _ _ (or_intror Hr))
      as (Hf & _). unfold same_outside_sending in Hf.
    destruct_and!. by eapply registry_exact_update.
  - by eapply registry_exact_update.
  - by eapply registry_exact_update.
  - done.
Qed.

(** X7.  In every reachable state of the process the list of active
    states is a well-formed doubly linked list (each [prev] points at the
    pointer that leads to its state, no state occurs twice) and it holds
    exactly the allocated states. *)
Theorem reachable_registry_exact w :
  reachable w →
  ∃ l, registry w l ∧ ∀ a, a ∈ l ↔ is_Some (heap w !! a).
Proof.
  intros Hreach.
  eapply (rtc_ind_r (λ w, registry_exact w)); [| |exact Hreach].
  - exists []. split; [split; [done | constructor]|].
    intros a. simpl. rewrite lookup_empty. split.
    + by intros ?%elem_of_nil.
    + by intros [? ?].
  - intros w1 w2 _ Hs IH. by eapply step_preserves_registry_exact.
Qed.

Lemma ctcp_read_running self state inputs creates :
  is_output_thread_running state ≠ 0 →
  (ctcp_read self state inputs creates).2 = [] ∧
  is_output_thread_running (ctcp_read self state inputs creates).1
    = is_output_thread_running state.
Proof.
  intros Hrun. unfold ctcp_read.
  destruct (ctcp_read_loop self state 1 inputs creates)
    as [[s1 br] evs] eqn:Hl.
  destruct (ctcp_read_loop_threads _ _ _ _ _ _ _ _ Hl) as (H1 & _).
  destruct H1 as [-> H1]; [by right|]. simpl. split; [done|].
  unfold ctcp_read_eof. by destruct (br =? -1).
Qed.

(** X5.  Nothing ever clears [is_output_thread_running]: a step of the
    process leaves a flag that is set as it is.  So once an output thread
    has been started for a connection, no later [ctcp_read] starts
    another, not even after that thread has returned or exited. *)
Theorem output_thread_started_once :
  (∀ w w' a st st',
     step w w' → heap w !! a = Some st → heap w' !! a = Some st' →
     is_output_thread_running st ≠ 0 →
     is_output_thread_running st' = is_output_thread_running st) ∧
  (∀ self st st' inputs creates,
     send_outbound_tail_segments st = Returned st' ∨
     send_outbound_tail_segments st = ThreadExit st' →
     is_output_thread_running st ≠ 0 →
     (ctcp_read self st' inputs creates).2 = []).
Proof.
  split.
  - intros w w' a st st' Hstep Ha Ha' Hrun.
    destruct (step_cases _ _ _ _ Hstep Ha')
      as [(Hnone & _)|(st0 & Ha0 & Hcase)]; [congruence|].
    assert (st0 = st) as -> by congruence.
    destruct Hcase as [Hsame|[(inputs & creates & <-)|[Hr|Hr]]].
    + unfold same_protocol_state in Hsame. by destruct_and!.
    + by apply ctcp_read_running.
    + by destruct (send_outbound_tail_segments_frame _ _ (or_introl Hr))
        as (_ & _ & ? & _).
    + by destruct (send_outbound_tail_segments_frame _ _ (or_intror Hr))
        as (_ & _ & ? & _).
  - intros self st st' inputs creates Hsend Hrun.
    destruct (send_outbound_tail_segments_frame _ _ Hsend)
      as (_ & _ & Hflag & _).
    apply ctcp_read_running. by rewrite Hflag.
Qed.

(** X9.  While the send window is closed the body of the output thread
    takes nothing off the outbound list: it returns the state as it found
    it, or dereferences [NULL] when the list is empty; it never exits the
    thread. *)
Theorem send_outbound_tail_segments_window_closed state :
  window_open state = false →
  (outbound_segments_list state ≠ [] →
     send_outbound_tail_segments state = Returned state) ∧
  (outbound_segments_list state = [] →
     send_outbound_tail_segments state = NullDeref) ∧
  (∀ st', send_outbound_tail_segments state ≠ ThreadExit st').
Proof.
  intros Hclosed. rewrite send_outbound_tail_segments_cases.
  unfold window_open in Hclosed. rewrite Hclosed.
  destruct (outbound_segments_list state); repeat split; try done.
Qed.

(** X10.  The send window is read into a [short]: a configured
    [send_window] of 32768 or more (up to 65535) is taken as a negative
    size, the window never opens however little is in flight, and a
    non-empty outbound list is never drained. *)
Theorem send_window_read_as_short state :
  2 ^ 15 ≤ send_window (config state) < 2 ^ 16 →
  0 ≤ bytes_inflight state →
  window_open state = false ∧
  (outbound_segments_list state ≠ [] →
     send_outbound_tail_segments state = Returned state).
Proof.
  intros Hwin Hin.
  assert (Hclosed : window_open state = false).
  { unfold window_open, to_short.
    replace ((send_window (config state) + 2 ^ 15) mod 2 ^ 16)
      with (send_window (config state) - 2 ^ 15).
    - rewrite Z.gtb_ltb. apply Z.ltb_ge. lia.
    - symmetry. rewrite <- (Z.mod_small (_ - _) (2 ^ 16)) by lia.
      replace (send_window (config state) + 2 ^ 15)
        with (send_window (config state) - 2 ^ 15 + 1 * 2 ^ 16) by lia.
      apply Z.mod_add. lia. }
  split; [done|]. intros Hne.
  rewrite send_outbound_tail_segments_cases.
  unfold window_open in Hclosed. rewrite Hclosed.
  by destruct (outbound_segments_list state).
Qed.

Lemma send_outbound_tail_segments_tail state l oldest :
  window_open state = true →
  outbound_segments_list state = l ++ [oldest] →
  l ≠ [] →
  send_outbound_tail_segments state
    = Returned (set_outbound_segments_list l state).
Proof.
  intros Hopen Hout Hne. rewrite send_outbound_tail_segments_cases.
  unfold window_open in Hopen. rewrite Hopen, Hout, removelast_last.
  destruct l as [|x l]; [done|].
  assert (∃ y r, l ++ [oldest] = y :: r) as (y & r & E)
    by (destruct l; simpl; eauto).
  cbn [app]. by rewrite E.
Qed.

(** X11.  With the window open and at least two segments queued, the body
    of the output thread takes exactly one segment off the outbound list,
    the one at the tail (the oldest, since [ctcp_read] adds at the head),
    keeps the others in their order and changes nothing else. *)
Theorem send_outbound_tail_segments_fifo state l oldest :
  window_open state = true →
  outbound_segments_list state = l ++ [oldest] →
  l ≠ [] →
  send_outbound_tail_segments state
    = Returned (set_outbound_segments_list l state) ∧
  outbound_segments_list (set_outbound_segments_list l state) = l ∧
  same_outside_sending state (set_outbound_segments_list l state).
Proof.
  intros Hopen Hout Hne. split; [|by repeat split].
  by apply (send_outbound_tail_segments_tail state l oldest).
Qed.

(** X14.  Segments leave the queue in the order they were read: after
    [ctcp_read] has read two chunks or more into an empty outbound list,
    one run of the output thread, with the window open, takes off the
    segment that carries the first chunk and the first sequence number,
    and leaves all the others queued. *)
Theorem first_read_is_dequeued_first self state inputs creates r1 r2 rest :
  outbound_segments_list state = [] →
  positive_reads inputs = r1 :: r2 :: rest →
  r1.1 ≤ Z.of_nat (length r1.2) →
  window_open state = true →
  let st := (ctcp_read self state inputs creates).1 in
  ∃ oldest remaining,
    outbound_segments_list st = remaining ++ [oldest] ∧
    data (segment oldest) = read_bytes r1 ∧
    ntohl (seqno (segment oldest)) = to_u32 (next_seq_no state) ∧
    (length remaining ≥ 1 + length rest)%nat ∧
    send_outbound_tail_segments st
      = Returned (set_outbound_segments_list remaining st).
Proof.
  intros Hempty Hreads Hfull Hopen st.
  assert (Hframe : same_outside_sending state st).
  { unfold st. destruct (ctcp_read self state inputs creates) eqn:E.
    by eapply ctcp_read_frame. }
  assert (Hopen' : window_open st = true).
  { unfold window_open in *. unfold same_outside_sending in Hframe.
    destruct_and!. congruence. }
  unfold st in *. clear st.
  destruct (ctcp_read_segments self state inputs creates)
    as (s1 & evs & news & Hr & Hn & Hdata & Hseq & _).
  rewrite Hr in *. simpl in *. rewrite Hreads, Hempty, app_nil_r in *.
  destruct news as [|n1 [|n2 news]]; simpl in Hdata; try discriminate.
  injection Hdata as Hd1 Hd2 Hdrest. injection Hseq as Hs1 _.
  set (fin_part := if terminating_read inputs =? -1
                   then [calloc_timestamped (create_new_fin_segment s1)]
                   else []).
  assert (Hout : outbound_segments_list
                   (ctcp_read_eof s1 (terminating_read inputs))
                 = (fin_part ++ rev news ++ [n2]) ++ [n1]).
  { unfold ctcp_read_eof, fin_part.
    destruct (terminating_read inputs =? -1); simpl; rewrite Hn; simpl;
      by rewrite <- ?app_assoc. }
  exists n1, (fin_part ++ rev news ++ [n2]).
  split; [done|].
  split. { rewrite Hd1. apply array_copy_malloc. lia. }
  split; [done|].
  split.
  { rewrite !length_app, length_rev. simpl.
    assert (length news = length rest).
    { by rewrite <- (length_map (λ ts, data (segment ts)) news), Hdrest,
        length_map. }
    lia. }
  apply (send_outbound_tail_segments_tail _ _ n1); [done | done |].
  intros E. apply (f_equal length) in E.
  rewrite !length_app in E. simpl in E. lia.
Qed.

(** The events a step adds to the trace: none of them is [conn_send]. *)
Lemma step_trace w w' :
  step w w' →
  ∃ evs, trace w' = trace w ++ evs ∧ ∀ c g, ev_conn_send c g ∉ evs.
Proof.
  intros Hstep. destruct Hstep as
    [conn cfg w0 | state w0 w1 Hd
    | state st0 inputs creates w0 st1 evs Hs Hr
    | state st0 st1 w0 Hin Hs Hr
    | state st0 st1 w0 Hin Hs Hr
    | state st0 segment len w0 Hs
    | state st0 w0 Hs
    | w0]; simpl.
  - exists []. destruct conn; simpl; rewrite app_nil_r.
    all: split; [done|]; intros ? ? Hev'; by apply elem_of_nil in Hev'.
  - unfold ctcp_destroy in Hd. destruct (heap w0 !! state) as [st|]; [|done].
    destruct (store_through _ _ _ _) as [h2 sl2]. injection Hd as <-.
    eexists. split; [reflexivity|]. intros ? ? Hev'.
    repeat (apply elem_of_cons in Hev' as [Hev'|Hev']; [discriminate|]).
    by apply elem_of_nil in Hev'.
  - exists evs. split; [done|]. intros ? ? Hev'.
    destruct (ctcp_read_unfold state st0 inputs creates)
      as (s1 & br & evs1 & news & _ & Hr' & _ & _ & _ & _ & Hev).
    rewrite Hr in Hr'. injection Hr' as _ ->.
    rewrite Forall_forall in Hev. destruct (Hev _ Hev') as [rc Hrc].
    discriminate.
  - exists []. rewrite app_nil_r. split; [done|].
    intros ? ? Hev'; by apply elem_of_nil in Hev'.
  - eexists. split; [reflexivity|]. intros ? ? Hev'.
    apply elem_of_cons in Hev' as [Hev'|Hev']; [discriminate|].
    by apply elem_of_nil in Hev'.
  - exists []. rewrite app_nil_r. split; [done|].
    intros ? ? Hev'; by apply elem_of_nil in Hev'.
  - exists []. rewrite app_nil_r. split; [done|].
    intros ? ? Hev'; by apply elem_of_nil in Hev'.
  - exists []. unfold ctcp_timer. rewrite app_nil_r. split; [done|].
    intros ? ? Hev'; by apply elem_of_nil in Hev'.
Qed.

(** X15.  Nothing is ever transmitted: in no reachable state of the
    process does the trace of external calls hold a call of [conn_send],
    whatever was read and however often the output thread ran. *)
Theorem reachable_never_sends w :
  reachable w → ∀ c g, ev_conn_send c g ∉ trace w.
Proof.
  intros Hreach.
  eapply (rtc_ind_r (λ w, ∀ c g, ev_conn_send c g ∉ trace w));
    [| |exact Hreach].
  - intros c g Hin. simpl in Hin. by apply elem_of_nil in Hin.
  - intros w1 w2 _ Hs IH c g Hin.
    destruct (step_trace _ _ Hs) as (evs & Htr & Hev).
    rewrite Htr in Hin. apply elem_of_app in Hin as [Hin|Hin].
    + by eapply IH.
    + by eapply Hev.
Qed.

(** X16.  In every reachable state of the process [bytes_inflight] is 0
    for every connection (no function assigns it after [ctcp_init]), so
    the send window of a connection is open exactly when its configured
    [send_window], read as a [short], is positive. *)
Theorem reachable_window_open w :
  reachable w →
  ∀ a st, heap w !! a = Some st →
    bytes_inflight st = 0 ∧
    (window_open st = true ↔ 0 < to_short (send_window (config st))).
Proof.
  intros Hreach a st Ha.
  destruct (reachable_inflight_empty w Hreach a st Ha) as [_ Hb].
  split; [done|].
  unfold window_open. rewrite Hb, Z.gtb_ltb. apply Z.ltb_lt.
Qed.

(** X13.  The body of the output thread dereferences the [NULL] tail of
    the outbound list exactly when that list is empty at its last test:
    when the window is open and one segment is queued (it has just been
    removed), or when the window is closed and nothing is queued. *)
Theorem send_outbound_tail_segments_null_deref state :
  send_outbound_tail_segments state = NullDeref ↔
  (window_open state = true ∧
   length (outbound_segments_list state) = 1%nat) ∨
  (window_open state = false ∧ outbound_segments_list state = []).
Proof.
  rewrite send_outbound_tail_segments_cases. unfold window_open.
  destruct (_ >? _); destruct (outbound_segments_list state) as [|x [|y l]];
    simpl; split; try done; try (intros [[? ?]|[? ?]]; done);
    try (intros _; by left); try (intros _; by right).
Qed.

End ProcessProofs.

(** ** Concrete runs *)

#[local] Existing Instance spec_platform.

(** Closed comparisons between numerals. *)
Ltac by_evaluation :=
  vm_compute; repeat split; intros; try discriminate; try reflexivity.

Lemma create_new_data_segment_header_witness :
  let r := create_new_data_segment sample_state 5 sample_buffer in
  ntohl (seqno r.1) = 1 ∧
  next_seq_no r.2 = 1 + 5 ∧
  ntohl (ackno r.1) = 0 ∧
  ntohs (len r.1) = 18 + 5 ∧
  data r.1 = sample_buffer.
Proof.
  destruct (create_new_data_segment_header sample_state 5 sample_buffer)
    as (_ & _ & _ & Hseq & _ & Hack & _ & _ & Hlen & Hdata & _);
    [by_evaluation ..|].
  destruct Hseq as [H1 H2]; [by_evaluation ..|].
  pose proof (Hack ltac:(by_evaluation)) as H3.
  repeat split; assumption.
Defined.

Lemma create_new_fin_segment_spec_witness :
  let g := create_new_fin_segment sample_state in
  data g = [] ∧ has_flag FIN g ∧
  ntohl (seqno g) = next_seq_no sample_state ∧
  next_seq_no (ctcp_read_eof sample_state (-1)) = next_seq_no sample_state.
Proof.
  destruct (create_new_fin_segment_spec sample_state)
    as (H1 & _ & _ & _ & H5 & _ & _ & H8 & _ & _ & H11 & _);
    [by_evaluation ..|].
  pose proof (H8 ltac:(by_evaluation)) as H8'.
  repeat split; assumption.
Defined.

(** C3, as stated, fails: after the FIN has been created and queued at end
    of input, [next_seq_no] is what it was, not one more; and a second
    call of [ctcp_read] at end of input creates a second FIN. *)
Lemma fin_does_not_consume_seqno :
  let st1 := (ctcp_read state_one sample_state
                [(-1, [])] []).1 in
  let st2 := (ctcp_read state_one st1 [(-1, [])] []).1 in
  let fin := calloc_timestamped
               (create_new_fin_segment sample_state) in
  outbound_segments_list st1 = [fin] ∧
  next_seq_no st1 ≠ next_seq_no sample_state + 1 ∧
  outbound_segments_list st2 = [fin; fin].
Proof. vm_compute. repeat split. discriminate. Qed.

Lemma ctcp_read_eof_branch_witness :
  (ctcp_read state_one sample_state [(-1, [])] []).2 = [] ∧
  next_seq_no
    (ctcp_read state_one sample_state [(-1, [])] []).1
  = next_seq_no sample_state.
Proof.
  destruct (ctcp_read_eof_branch state_one sample_state
              [(-1, [])] [] sample_state [] eq_refl)
    as (_ & _ & _ & _ & _ & _ & _ & _ & _ & H).
  destruct (H [] [] eq_refl) as (_ & H2 & _ & _ & H5).
  split; assumption.
Defined.

Lemma ctcp_receive_monotone_witness :
  ctcp_receive sample_state sample_ack 18 = sample_state.
Proof.
  apply (proj2 (proj2 (ctcp_receive_monotone sample_state
                         [(sample_ack, 18)]))).
  - reflexivity.
  - by_evaluation.
  - by_evaluation.
Defined.

Lemma ctcp_destroy_ends_client_witness :
  heap world_one !! state_one = Some initialised_state ∧
  ∃ w', ctcp_destroy state_one world_one = Some w' ∧
        last (trace w') = Some ev_end_client.
Proof.
  assert (Hst : heap world_one !! state_one = Some initialised_state)
    by (vm_compute; reflexivity).
  split; [exact Hst|].
  destruct (ctcp_destroy_ends_client state_one initialised_state world_one
              Hst)
    as (w' & Hd & _ & Hlast & _).
  exists w'. split; assumption.
Defined.

(** The processes used below are reachable. *)
Lemma world_sending_reachable :
  ∃ w, world_sending = Some w ∧ reachable w.
Proof.
  destruct world_sending as [w|] eqn:E; [|vm_compute in E; discriminate].
  exists w. split; [done|].
  eapply rtc_r; [|eapply ctcp_read_at_step, E].
  apply rtc_once, (step_init (Some 7%nat) sample_config).
Qed.

Lemma world_two_queued_reachable :
  ∃ w, world_two_queued = Some w ∧ reachable w.
Proof.
  destruct world_two_queued as [w|] eqn:E; [|vm_compute in E; discriminate].
  exists w. split; [done|].
  eapply rtc_r; [|eapply ctcp_read_at_step, E].
  apply rtc_once, (step_init (Some 7%nat) sample_config).
Qed.

(** C2, on the code.  With two segments queued, the send window open and
    nothing in flight, the body of the output thread removes the oldest
    segment (the tail) from the outbound list and returns: the segment is
    not put on the inflight list, [bytes_inflight] stays 0 although the
    segment carries five payload bytes, and the trace of the process gains
    no call at all, so nothing is transmitted.  With one segment queued the
    body dereferences the tail of the emptied list.  With none queued, the
    thread exits. *)
Theorem send_outbound_tail_segments_only_dequeues :
  outbound_segments_list state_two_queued
    = [second_data_segment; first_data_segment] ∧
  bytes_inflight state_two_queued < send_window (config state_two_queued) ∧
  payload_length first_data_segment = 5 ∧
  send_outbound_tail_segments state_two_queued
    = Returned (set_outbound_segments_list [second_data_segment]
                  state_two_queued) ∧
  inflight_segments_list
    (set_outbound_segments_list [second_data_segment] state_two_queued)
    = [] ∧
  bytes_inflight
    (set_outbound_segments_list [second_data_segment] state_two_queued)
    = 0 ∧
  trace <$> world_two_queued = Some [ev_pthread_create state_one 0] ∧
  trace <$> (world_two_queued ≫= output_thread_at state_one)
    = Some [ev_pthread_create state_one 0] ∧
  send_outbound_tail_segments
    (set_outbound_segments_list [first_data_segment] sample_state)
    = NullDeref ∧
  send_outbound_tail_segments sample_state = ThreadExit sample_state.
Proof. vm_compute. repeat split. Qed.

(** C6, on the code.  In the process where the connection has data queued
    and its output thread has been created, [ctcp_destroy] unlinks the
    state, calls [conn_remove], [free] and [end_client] and nothing else:
    the output thread is still pending, now on a freed state, and no call
    releases the three lists. *)
Theorem ctcp_destroy_leaves_thread_and_queues :
  let destroyed := world_sending ≫= ctcp_destroy state_one in
  threads <$> world_sending = Some [state_one] ∧
  (λ w, outbound_segments_list <$> heap w !! state_one) <$> world_sending
    = Some (Some [first_data_segment]) ∧
  trace <$> world_sending = Some [ev_pthread_create state_one 0] ∧
  state_list <$> destroyed = Some None ∧
  (λ w, heap w !! state_one) <$> destroyed = Some None ∧
  threads <$> destroyed = Some [state_one] ∧
  trace <$> destroyed
    = Some [ev_pthread_create state_one 0; ev_conn_remove 7%nat;
            ev_free state_one; ev_end_client] ∧
  destroyed ≫= output_thread_at state_one = None.
Proof. vm_compute. repeat split. Qed.

(** ** Concrete runs of the further properties *)

Lemma array_copy_spec_witness :
  array_copy (malloc 3) sample_buffer 3
    = take 3 sample_buffer ++ drop 3 (malloc 3) ∧
  array_copy (malloc 3) sample_buffer 0 = malloc 3.
Proof.
  destruct (array_copy_spec (malloc 3) sample_buffer 3) as (_ & _ & H3).
  destruct (array_copy_spec (malloc 3) sample_buffer 0) as (_ & H0 & _).
  split; [apply H3; by_evaluation | apply H0; by_evaluation].
Defined.

Lemma ctcp_read_queues_input_witness :
  ∃ fin_part news,
    outbound_segments_list
      (ctcp_read state_one sample_state two_reads_then_eof []).1
      = fin_part ++ rev news ++ [] ∧
    map (λ ts, data (segment ts)) news
      = [sample_buffer; take 3 sample_buffer] ∧
    length fin_part = 1%nat.
Proof.
  destruct (ctcp_read_queues_input state_one sample_state
              two_reads_then_eof [])
    as (fin_part & news & H1 & _ & H3 & H4 & _).
  { repeat (constructor; [by_evaluation|]). constructor. }
  exists fin_part, news. split; [exact H1|]. split; [exact H3 | exact H4].
Defined.

Lemma ctcp_read_thread_creation_witness :
  is_output_thread_running
    (ctcp_read state_one sample_state two_reads_then_eof []).1 = 1 ∧
  (ctcp_read state_one state_two_queued two_reads_then_eof []).2 = [].
Proof.
  destruct (ctcp_read_thread_creation state_one sample_state
              two_reads_then_eof []) as (_ & _ & _ & H4).
  destruct (ctcp_read_thread_creation state_one state_two_queued
              two_reads_then_eof []) as (_ & H2 & _ & _).
  split.
  - apply H4. by_evaluation.
  - apply H2. by_evaluation.
Defined.

Lemma output_thread_started_once_witness :
  (ctcp_read state_one
     (set_outbound_segments_list [second_data_segment] state_two_queued)
     two_reads_then_eof []).2 = [].
Proof.
  apply (proj2 output_thread_started_once state_one state_two_queued).
  - left. vm_compute. reflexivity.
  - by_evaluation.
Defined.

Lemma ctcp_init_destroy_round_trip_witness :
  ctcp_destroy state_one (ctcp_init (Some 7%nat) sample_config
                            initial_world).2
    = Some (mk_world ∅ None []
              [ev_conn_remove 7%nat; ev_free state_one; ev_end_client]).
Proof.
  assert (H0 : registry initial_world []) by (split; [done | constructor]).
  destruct (ctcp_init_destroy_round_trip 7%nat sample_config
              initial_world [] H0) as (a & Ha & Hd).
  injection Ha as <-. exact Hd.
Defined.

Lemma reachable_registry_exact_witness :
  reachable world_one ∧
  ∃ l, registry world_one l ∧
       ∀ a, a ∈ l ↔ is_Some (heap world_one !! a).
Proof.
  assert (Hr : reachable world_one).
  { apply rtc_once. apply (step_init (Some 7%nat) sample_config). }
  split; [exact Hr|]. exact (reachable_registry_exact world_one Hr).
Defined.

Lemma other_connections_untouched_witness :
  ∃ st', heap (ctcp_init (Some 8%nat) sample_config world_one).2
           !! state_one = Some st' ∧
         same_protocol_state initialised_state st'.
Proof.
  assert (Hst : heap world_one !! state_one = Some initialised_state)
    by (vm_compute; reflexivity).
  exact (proj1 (other_connections_untouched state_one initialised_state
                  world_one Hst) 8%nat sample_config).
Defined.

Lemma send_outbound_tail_segments_window_closed_witness :
  send_outbound_tail_segments state_wide_window = Returned state_wide_window.
Proof.
  destruct (send_outbound_tail_segments_window_closed state_wide_window)
    as (H1 & _); [by_evaluation|].
  apply H1. discriminate.
Defined.

Lemma send_window_read_as_short_witness :
  window_open state_wide_window = false ∧
  send_outbound_tail_segments state_wide_window = Returned state_wide_window.
Proof.
  destruct (send_window_read_as_short state_wide_window) as (H1 & H2);
    [by_evaluation ..|].
  split; [exact H1|]. apply H2. discriminate.
Defined.

Lemma send_outbound_tail_segments_fifo_witness :
  send_outbound_tail_segments state_two_queued
    = Returned (set_outbound_segments_list [second_data_segment]
                  state_two_queued).
Proof.
  apply (send_outbound_tail_segments_fifo state_two_queued
           [second_data_segment] first_data_segment).
  - by_evaluation.
  - vm_compute. reflexivity.
  - discriminate.
Defined.

Lemma send_outbound_tail_segments_null_deref_witness :
  send_outbound_tail_segments
    (set_outbound_segments_list [first_data_segment] sample_state)
  = NullDeref.
Proof.
  apply send_outbound_tail_segments_null_deref.
  left. split; by_evaluation.
Defined.

Lemma first_read_is_dequeued_first_witness :
  let st := (ctcp_read state_one sample_state two_reads_then_eof []).1 in
  ∃ oldest remaining,
    outbound_segments_list st = remaining ++ [oldest] ∧
    data (segment oldest) = sample_buffer ∧
    ntohl (seqno (segment oldest)) = 1 ∧
    send_outbound_tail_segments st
      = Returned (set_outbound_segments_list remaining st).
Proof.
  destruct (first_read_is_dequeued_first state_one sample_state
              two_reads_then_eof [] (5, sample_buffer) (3, sample_buffer) [])
    as (oldest & remaining & H1 & H2 & H3 & _ & H5);
    [by_evaluation ..|].
  exists oldest, remaining.
  split; [exact H1|]. split; [exact H2|]. split; [exact H3 | exact H5].
Defined.

Lemma reachable_never_sends_witness :
  ∃ w, world_two_queued = Some w ∧ reachable w ∧
       ∀ c g, ev_conn_send c g ∉ trace w.
Proof.
  destruct world_two_queued_reachable as (w & Hw & Hr).
  exists w. split; [exact Hw|]. split; [exact Hr|].
  exact (reachable_never_sends w Hr).
Defined.

Lemma reachable_window_open_witness :
  reachable world_one ∧ window_open initialised_state = true.
Proof.
  assert (Hr : reachable world_one).
  { apply rtc_once. apply (step_init (Some 7%nat) sample_config). }
  split; [exact Hr|].
  assert (Hst : heap world_one !! state_one = Some initialised_state)
    by (vm_compute; reflexivity).
  destruct (reachable_window_open world_one Hr state_one initialised_state
              Hst) as (_ & Hopen).
  apply Hopen. by_evaluation.
Defined.

(** ** The defects of [create_new_data_segment], [ctcp_init] and the
    inflight accounting, on concrete inputs *)

(** C4, on the code.  [create_new_data_segment] computes the checksum from
    the header block and the length alone, on every platform: the payload
    is in a block of its own and is not covered.  Two segments made from
    the same state with payloads "hello" and "world" differ in their data
    and carry the same checksum. *)
Theorem create_new_data_segment_checksum_misses_payload :
  (∀ (Q : Platform) state bytes_read buffer buffer',
     cksum (@create_new_data_segment Q state bytes_read buffer).1
       = @cksum_fn Q
           (header_block
              (set_cksum 0
                 (@create_new_data_segment Q state bytes_read buffer).1))
           (@ntohs Q
              (len (@create_new_data_segment Q state bytes_read buffer).1))
     ∧
     cksum (@create_new_data_segment Q state bytes_read buffer).1
       = cksum (@create_new_data_segment Q state bytes_read buffer').1) ∧
  data (create_new_data_segment sample_state 5 sample_buffer).1
    = sample_buffer ∧
  data (create_new_data_segment sample_state 5 other_buffer).1
    = other_buffer ∧
  sample_buffer ≠ other_buffer ∧
  cksum (create_new_data_segment sample_state 5 sample_buffer).1
    = cksum (create_new_data_segment sample_state 5 other_buffer).1.
Proof.
  split.
  - intros Q state bytes_read buffer buffer'.
    destruct (@create_new_data_segment_cksum_payload Q state bytes_read
                buffer buffer') as (H1 & _ & H3).
    by split.
  - vm_compute. repeat split. discriminate.
Qed.

